(** * A caching reverse proxy: the cache abstraction and its two backends

    Shallow embedding of [src/apiCache.ts] (the [ApiCache] interface, the
    file-backed [LocalCache] and the networked [RedisCache]) and of the
    request handler and backend selection of the server entry point.

    JavaScript values are modelled by one type [value]; strings are byte
    strings; numbers are integers, printed in plain decimal notation (the
    fields [timeStored] and [status] are integers; number literals with a
    fraction or an exponent are outside this model).  A promise is modelled
    by its settled outcome, and every backend operation threads the state of
    the backend explicitly: the Map and the file of [LocalCache], the
    connection and the remote store of [RedisCache]. *)

From Stdlib Require Import String Ascii List ZArith Lia Bool.
From Stdlib Require Import Decimal DecimalFacts DecimalPos DecimalZ DecimalString.
Import ListNotations.

Local Open Scope list_scope.
Local Open Scope string_scope.

(** ** Exceptions, results and promises *)

Inductive exn : Type :=
| SyntaxError                    (* thrown by JSON.parse *)
| TypeError                      (* thrown by [new Map(x)] on a non-iterable [x] *)
| FsError (code : string)        (* thrown by readFileSync: ENOENT, EACCES, ... *)
| ClientError (msg : string)     (* a failed Redis command or connection *)
| Thrown (s : string).           (* a string used as rejection reason *)

Inductive result (A : Type) : Type :=
| Ok (a : A)
| Throw (e : exn).
Arguments Ok {A} a.
Arguments Throw {A} e.

Definition bind_result {A B} (r : result A) (f : A -> result B) : result B :=
  match r with
  | Ok a => f a
  | Throw e => Throw e
  end.

Notation "'try!' x <- r ; k" := (bind_result r (fun x => k))
  (at level 10, x pattern, r at level 100, k at level 200).

Inductive Promise (A : Type) : Type :=
| Resolved (a : A)
| Rejected (e : exn).
Arguments Resolved {A} a.
Arguments Rejected {A} e.

(** ** JavaScript values *)

Unset Elimination Schemes.
Inductive value : Type :=
| VUndefined
| VNull
| VBool (b : bool)
| VNum (n : Z)
| VStr (s : string)
| VArr (items : list value)
| VObj (props : list (string * value))
| VMap (entries : list (value * value)).
Set Elimination Schemes.

(** [typeof v === "object" && v !== null] *)
Definition is_object (v : value) : bool :=
  match v with
  | VArr _ | VObj _ | VMap _ => true
  | _ => false
  end.

(** Own properties of an object in creation order; defining a property that
    exists keeps its position (CreateDataProperty). *)
Fixpoint obj_define (props : list (string * value)) (p : string * value)
  : list (string * value) :=
  match props with
  | [] => [p]
  | q :: rest =>
      if String.eqb (fst q) (fst p) then (fst q, snd p) :: rest
      else q :: obj_define rest p
  end.

Fixpoint obj_lookup (props : list (string * value)) (name : string) : value :=
  match props with
  | [] => VUndefined
  | q :: rest => if String.eqb (fst q) name then snd q else obj_lookup rest name
  end.

Definition string_of_nat (n : nat) : string :=
  DecimalString.NilZero.string_of_uint (Nat.to_uint n).

Definition index_of_string (s : string) : option nat :=
  match DecimalString.NilZero.uint_of_string s with
  | Some d => if String.eqb (string_of_nat (Nat.of_uint d)) s
              then Some (Nat.of_uint d) else None
  | None => None
  end.

(** Property read [v.name] on the values of this model: arrays answer to
    their indices, objects to their own properties; the names read by the
    program ([dataType], [value], [0], [1], [data], ...) are not inherited. *)
Definition prop (v : value) (name : string) : value :=
  match v with
  | VObj props => obj_lookup props name
  | VArr items =>
      match index_of_string name with
      | Some i => nth i items VUndefined
      | None => VUndefined
      end
  | _ => VUndefined
  end.

(** Strict equality with a string literal: [v === lit]. *)
Definition strict_eq_string (v : value) (lit : string) : bool :=
  match v with
  | VStr s => String.eqb s lit
  | _ => false
  end.

(** ** ES6 Map: entries in insertion order, keys compared by SameValueZero.
    Objects are equal to themselves only; the objects met as keys here are
    nodes of a freshly parsed document, which are never shared. *)
Module JsMap.

Definition t : Type := list (value * value).

Definition same_value_zero (a b : value) : bool :=
  match a, b with
  | VUndefined, VUndefined => true
  | VNull, VNull => true
  | VBool x, VBool y => Bool.eqb x y
  | VNum x, VNum y => Z.eqb x y
  | VStr x, VStr y => String.eqb x y
  | _, _ => false
  end.

Fixpoint has (m : t) (k : value) : bool :=
  match m with
  | [] => false
  | (k', _) :: rest => same_value_zero k' k || has rest k
  end.

Fixpoint get (m : t) (k : value) : value :=
  match m with
  | [] => VUndefined
  | (k', v) :: rest => if same_value_zero k' k then v else get rest k
  end.

Fixpoint set (m : t) (k v : value) : t :=
  match m with
  | [] => [(k, v)]
  | (k', v') :: rest =>
      if same_value_zero k' k then (k', v) :: rest
      else (k', v') :: set rest k v
  end.

(** [m.delete(k)]: the map without the entry, and whether it was there.
    The keys of a Map are distinct; on a list that repeats a key every
    entry of the key goes. *)
Fixpoint delete (m : t) (k : value) : bool * t :=
  match m with
  | [] => (false, [])
  | (k', v') :: rest =>
      let (b, rest') := delete rest k in
      if same_value_zero k' k then (true, rest') else (b, (k', v') :: rest')
  end.

(** [new Map(iterable)] *)
Definition of_iterable (x : value) : result t :=
  match x with
  | VUndefined | VNull => Ok []
  | VMap m => Ok (fold_left (fun acc e => set acc (fst e) (snd e)) m [])
  | VArr items =>
      fold_left
        (fun acc item =>
           try! m <- acc;
           if is_object item
           then Ok (set m (prop item "0") (prop item "1"))
           else Throw TypeError)
        items (Ok [])
  | VStr "" => Ok []
  | _ => Throw TypeError
  end.

(** [Array.from(m.entries())] *)
Definition entries (m : t) : value :=
  VArr (map (fun e => VArr [fst e; snd e]) m).

End JsMap.

(** The quotation mark. *)
Definition dquote : ascii := Ascii false true false false false true false false.

(** A text in which the quotation mark is written as an apostrophe. *)
Fixpoint json_text (s : string) : string :=
  match s with
  | EmptyString => EmptyString
  | String c r => String (if (c =? "'")%char then dquote else c) (json_text r)
  end.

(** ** JSON text

    [JSON.write] is SerializeJSONProperty without indentation, written with
    the rest of the output as an accumulator; [JSON.parse_value] is a
    recursive-descent parser of the JSON grammar. *)
Module JSON.

(** *** Writing *)

Fixpoint write_uint (d : uint) (k : string) : string :=
  match d with
  | Nil => k
  | D0 d => String "0" (write_uint d k)
  | D1 d => String "1" (write_uint d k)
  | D2 d => String "2" (write_uint d k)
  | D3 d => String "3" (write_uint d k)
  | D4 d => String "4" (write_uint d k)
  | D5 d => String "5" (write_uint d k)
  | D6 d => String "6" (write_uint d k)
  | D7 d => String "7" (write_uint d k)
  | D8 d => String "8" (write_uint d k)
  | D9 d => String "9" (write_uint d k)
  end.

Definition write_int (n : Z) (k : string) : string :=
  match Z.to_int n with
  | Pos d => write_uint d k
  | Neg d => String "-" (write_uint d k)
  end.

Definition hex_digit (n : nat) : ascii :=
  nth n (list_ascii_of_string "0123456789abcdef") "0"%char.

(** QuoteJSONString, one character at a time. *)
Definition write_char (c : ascii) (k : string) : string :=
  let n := nat_of_ascii c in
  if (c =? dquote)%char then String "\" (String dquote k)
  else if (c =? "\")%char then String "\" (String "\" k)
  else if Nat.eqb n 8 then String "\" (String "b" k)
  else if Nat.eqb n 12 then String "\" (String "f" k)
  else if Nat.eqb n 10 then String "\" (String "n" k)
  else if Nat.eqb n 13 then String "\" (String "r" k)
  else if Nat.eqb n 9 then String "\" (String "t" k)
  else if Nat.ltb n 32 then
    String "\" (String "u" (String "0" (String "0"
      (String (hex_digit (n / 16)) (String (hex_digit (n mod 16)) k)))))
  else String c k.

Fixpoint write_chars (s : string) (k : string) : string :=
  match s with
  | EmptyString => k
  | String c r => write_char c (write_chars r k)
  end.

Definition write_string (s : string) (k : string) : string :=
  String dquote (write_chars s (String dquote k)).

Fixpoint write (v : value) (k : string) : string :=
  match v with
  | VUndefined => k
  | VNull => "null" ++ k
  | VBool true => "true" ++ k
  | VBool false => "false" ++ k
  | VNum n => write_int n k
  | VStr s => write_string s k
  | VArr items =>
      String "["
        ((fix elements (l : list value) (k : string) : string :=
            match l with
            | [] => k
            | x :: rest =>
                let k' := match rest with
                          | [] => k
                          | _ :: _ => String "," (elements rest k)
                          end in
                match x with
                | VUndefined => "null" ++ k'
                | _ => write x k'
                end
            end) items (String "]" k))
  | VObj props =>
      String "{"
        ((fix members (l : list (string * value)) (first : bool) (k : string)
            : string :=
            match l with
            | [] => k
            | (_, VUndefined) :: rest => members rest first k
            | (name, x) :: rest =>
                let body :=
                  write_string name (String ":" (write x (members rest false k))) in
                if first then body else String "," body
            end) props true (String "}" k))
  | VMap _ => "{}" ++ k
  end.

(** The elements of an array and the members of an object, as [write]
    prints them. *)
Fixpoint write_elements (l : list value) (k : string) : string :=
  match l with
  | [] => k
  | x :: rest =>
      let k' := match rest with
                | [] => k
                | _ :: _ => String "," (write_elements rest k)
                end in
      match x with
      | VUndefined => "null" ++ k'
      | _ => write x k'
      end
  end.

Fixpoint write_members (l : list (string * value)) (first : bool) (k : string)
  : string :=
  match l with
  | [] => k
  | (_, VUndefined) :: rest => write_members rest first k
  | (name, x) :: rest =>
      let body :=
        write_string name (String ":" (write x (write_members rest false k))) in
      if first then body else String "," body
  end.

(** [JSON.stringify(v)]; [None] is the result [undefined]. *)
Definition stringify (v : value) : option string :=
  match v with
  | VUndefined => None
  | _ => Some (write v "")
  end.

(** [JSON.stringify(v, replacer)]: the replacer is applied to every
    property before it is serialized, starting with the value itself
    under the empty key.  The descent follows the replacer's results, so
    it is bounded by [fuel]; [None] means the bound was reached. *)
Fixpoint replace (fuel : nat) (replacer : string -> value -> value)
    (key : string) (v : value) : option value :=
  match fuel with
  | O => None
  | S fuel =>
      match replacer key v with
      | VArr items =>
          option_map VArr
            ((fix each (i : nat) (l : list value) : option (list value) :=
                match l with
                | [] => Some []
                | x :: rest =>
                    match replace fuel replacer (string_of_nat i) x, each (S i) rest with
                    | Some x', Some rest' => Some (x' :: rest')
                    | _, _ => None
                    end
                end) O items)
      | VObj props =>
          option_map VObj
            ((fix each (l : list (string * value)) : option (list (string * value)) :=
                match l with
                | [] => Some []
                | (name, x) :: rest =>
                    match replace fuel replacer name x, each rest with
                    | Some x', Some rest' => Some ((name, x') :: rest')
                    | _, _ => None
                    end
                end) props)
      | v' => Some v'
      end
  end.

(** The elements of an array and the properties of an object, as
    [replace] descends into them. *)
Fixpoint replace_items (fuel : nat) (replacer : string -> value -> value)
    (i : nat) (l : list value) : option (list value) :=
  match l with
  | [] => Some []
  | x :: rest =>
      match replace fuel replacer (string_of_nat i) x,
            replace_items fuel replacer (S i) rest with
      | Some x', Some rest' => Some (x' :: rest')
      | _, _ => None
      end
  end.

Fixpoint replace_props (fuel : nat) (replacer : string -> value -> value)
    (l : list (string * value)) : option (list (string * value)) :=
  match l with
  | [] => Some []
  | (name, x) :: rest =>
      match replace fuel replacer name x, replace_props fuel replacer rest with
      | Some x', Some rest' => Some ((name, x') :: rest')
      | _, _ => None
      end
  end.

Definition stringify_with (fuel : nat) (replacer : string -> value -> value)
    (v : value) : option (option string) :=
  option_map stringify (replace fuel replacer "" v).

(** *** Parsing *)

Definition is_ws (c : ascii) : bool :=
  let n := nat_of_ascii c in
  Nat.eqb n 32 || Nat.eqb n 9 || Nat.eqb n 10 || Nat.eqb n 13.

Fixpoint skip_ws (s : string) : string :=
  match s with
  | EmptyString => s
  | String c r => if is_ws c then skip_ws r else s
  end.

Definition digit_of (c : ascii) : option (uint -> uint) :=
  if (c =? "0")%char then Some D0
  else if (c =? "1")%char then Some D1
  else if (c =? "2")%char then Some D2
  else if (c =? "3")%char then Some D3
  else if (c =? "4")%char then Some D4
  else if (c =? "5")%char then Some D5
  else if (c =? "6")%char then Some D6
  else if (c =? "7")%char then Some D7
  else if (c =? "8")%char then Some D8
  else if (c =? "9")%char then Some D9
  else None.

Fixpoint read_digits (s : string) : uint * string :=
  match s with
  | EmptyString => (Nil, s)
  | String c r =>
      match digit_of c with
      | Some d => let (ds, r') := read_digits r in (d ds, r')
      | None => (Nil, s)
      end
  end.

(** The integer part of a JSON number: one digit, or several not
    starting with a zero. *)
Definition int_digits (d : uint) : bool :=
  match d with
  | Nil => false
  | D0 Nil => true
  | D0 _ => false
  | _ => true
  end.

Definition starts_fraction (s : string) : bool :=
  match s with
  | String c _ => (c =? ".")%char || (c =? "e")%char || (c =? "E")%char
  | EmptyString => false
  end.

Definition read_number (s : string) : option (Z * string) :=
  let (negative, s1) :=
    match s with
    | String c r => if (c =? "-")%char then (true, r) else (false, s)
    | EmptyString => (false, s)
    end in
  let (d, r) := read_digits s1 in
  if int_digits d && negb (starts_fraction r)
  then Some (Z.of_int (if negative then Neg d else Pos d), r)
  else None.

Definition hex_value (c : ascii) : option nat :=
  let n := nat_of_ascii c in
  if Nat.leb 48 n && Nat.leb n 57 then Some (n - 48)
  else if Nat.leb 97 n && Nat.leb n 102 then Some (n - 87)
  else if Nat.leb 65 n && Nat.leb n 70 then Some (n - 55)
  else None.

Definition hex4 (a b c d : ascii) : option nat :=
  match hex_value a, hex_value b, hex_value c, hex_value d with
  | Some x, Some y, Some z, Some w => Some (((x * 16 + y) * 16 + z) * 16 + w)
  | _, _, _, _ => None
  end.

(** The bytes of a UTF-16 code unit written [\uXXXX]; a surrogate is
    encoded like any other code unit. *)
Definition code_unit_bytes (n : nat) (k : string) : string :=
  if Nat.ltb n 128 then String (ascii_of_nat n) k
  else if Nat.ltb n 2048 then
    String (ascii_of_nat (192 + n / 64)) (String (ascii_of_nat (128 + n mod 64)) k)
  else
    String (ascii_of_nat (224 + n / 4096))
      (String (ascii_of_nat (128 + (n / 64) mod 64))
         (String (ascii_of_nat (128 + n mod 64)) k)).

Definition unescape (c : ascii) : option ascii :=
  if (c =? dquote)%char then Some dquote
  else if (c =? "\")%char then Some "\"%char
  else if (c =? "/")%char then Some "/"%char
  else if (c =? "b")%char then Some (ascii_of_nat 8)
  else if (c =? "f")%char then Some (ascii_of_nat 12)
  else if (c =? "n")%char then Some (ascii_of_nat 10)
  else if (c =? "r")%char then Some (ascii_of_nat 13)
  else if (c =? "t")%char then Some (ascii_of_nat 9)
  else None.

Definition cons_chars (f : string -> string) (r : option (string * string))
  : option (string * string) :=
  match r with
  | Some (s, rest) => Some (f s, rest)
  | None => None
  end.

(** The characters of a string literal, after the opening quote. *)
Fixpoint read_chars (s : string) : option (string * string) :=
  match s with
  | EmptyString => None
  | String c r =>
      if (c =? dquote)%char then Some (EmptyString, r)
      else if (c =? "\")%char then
        match r with
        | String e r1 =>
            if (e =? "u")%char then
              match r1 with
              | String h1 (String h2 (String h3 (String h4 r2))) =>
                  match hex4 h1 h2 h3 h4 with
                  | Some n => cons_chars (code_unit_bytes n) (read_chars r2)
                  | None => None
                  end
              | _ => None
              end
            else
              match unescape e with
              | Some c' => cons_chars (String c') (read_chars r1)
              | None => None
              end
        | EmptyString => None
        end
      else if Nat.ltb (nat_of_ascii c) 32 then None
      else cons_chars (String c) (read_chars r)
  end.

Fixpoint expect (lit : string) (s : string) : option string :=
  match lit, s with
  | EmptyString, _ => Some s
  | String a lit', String b s' => if (a =? b)%char then expect lit' s' else None
  | String _ _, EmptyString => None
  end.

Fixpoint parse_value (fuel : nat) (s : string) : option (value * string) :=
  match fuel with
  | O => None
  | S fuel =>
      match skip_ws s with
      | EmptyString => None
      | String c r =>
          if (c =? "n")%char then option_map (pair VNull) (expect "ull" r)
          else if (c =? "t")%char then option_map (pair (VBool true)) (expect "rue" r)
          else if (c =? "f")%char then option_map (pair (VBool false)) (expect "alse" r)
          else if (c =? dquote)%char then
            match read_chars r with
            | Some (str, r') => Some (VStr str, r')
            | None => None
            end
          else if (c =? "[")%char then
            match skip_ws r with
            | String c' r' =>
                if (c' =? "]")%char then Some (VArr [], r')
                else match parse_elements fuel r with
                     | Some (items, r'') => Some (VArr items, r'')
                     | None => None
                     end
            | EmptyString => None
            end
          else if (c =? "{")%char then
            match skip_ws r with
            | String c' r' =>
                if (c' =? "}")%char then Some (VObj [], r')
                else match parse_members fuel r with
                     | Some (props, r'') => Some (VObj (fold_left obj_define props []), r'')
                     | None => None
                     end
            | EmptyString => None
            end
          else
            match read_number (String c r) with
            | Some (n, r') => Some (VNum n, r')
            | None => None
            end
      end
  end

with parse_elements (fuel : nat) (s : string) : option (list value * string) :=
  match fuel with
  | O => None
  | S fuel =>
      match parse_value fuel s with
      | Some (v, r) =>
          match skip_ws r with
          | String c r' =>
              if (c =? ",")%char then
                match parse_elements fuel r' with
                | Some (vs, r'') => Some (v :: vs, r'')
                | None => None
                end
              else if (c =? "]")%char then Some ([v], r')
              else None
          | EmptyString => None
          end
      | None => None
      end
  end

with parse_members (fuel : nat) (s : string)
  : option (list (string * value) * string) :=
  match fuel with
  | O => None
  | S fuel =>
      match skip_ws s with
      | String q r =>
          if (q =? dquote)%char then
            match read_chars r with
            | Some (name, r1) =>
                match skip_ws r1 with
                | String c r2 =>
                    if (c =? ":")%char then
                      match parse_value fuel r2 with
                      | Some (v, r3) =>
                          match skip_ws r3 with
                          | String c' r4 =>
                              if (c' =? ",")%char then
                                match parse_members fuel r4 with
                                | Some (ps, r5) => Some ((name, v) :: ps, r5)
                                | None => None
                                end
                              else if (c' =? "}")%char then Some ([(name, v)], r4)
                              else None
                          | EmptyString => None
                          end
                      | None => None
                      end
                    else None
                | EmptyString => None
                end
            | None => None
            end
          else None
      | EmptyString => None
      end
  end.

(** [JSON.parse(text)]; a text that is not one JSON value is a
    SyntaxError. *)
Definition parse (text : string) : result value :=
  match parse_value (S (String.length text)) text with
  | Some (v, rest) =>
      match skip_ws rest with
      | EmptyString => Ok v
      | String _ _ => Throw SyntaxError
      end
  | None => Throw SyntaxError
  end.

(** What may follow a number: no digit, fraction or exponent. *)
Definition starts_digit (s : string) : bool :=
  match s with
  | String c _ => match digit_of c with Some _ => true | None => false end
  | EmptyString => false
  end.

Definition number_end (s : string) : bool :=
  negb (starts_digit s) && negb (starts_fraction s).

(** The first character of a printed value: not white space and not a
    closing bracket. *)
Definition opens_value (s : string) : Prop :=
  exists c r, s = String c r /\ is_ws c = false /\
              (c =? "]")%char = false /\ (c =? "}")%char = false.

(** The values JSON text denotes: no [undefined], no Map, and objects
    whose property names are distinct. *)
Fixpoint distinct (names : list string) : bool :=
  match names with
  | [] => true
  | n :: rest => negb (existsb (String.eqb n) rest) && distinct rest
  end.

Fixpoint is_json (v : value) : bool :=
  match v with
  | VUndefined | VMap _ => false
  | VNull | VBool _ | VNum _ | VStr _ => true
  | VArr items => forallb is_json items
  | VObj props =>
      forallb (fun p => is_json (snd p)) props && distinct (List.map fst props)
  end.

(** Fuel that [parse_value] needs to read back what [write] printed. *)
Fixpoint need (v : value) : nat :=
  match v with
  | VArr items => S (fold_right (fun x n => S (need x + n)) O items)
  | VObj props => S (fold_right (fun p n => S (need (snd p) + n)) O props)
  | _ => 1
  end.

Definition need_elements (items : list value) : nat :=
  fold_right (fun x n => S (need x + n)) O items.

Definition need_members (props : list (string * value)) : nat :=
  fold_right (fun p n => S (need (snd p) + n)) O props.

(** [parse_value] reads back what [write] printed for [v], whatever
    follows it. *)
Definition reads_back (v : value) : Prop :=
  is_json v = true ->
  forall k fuel, number_end k = true -> need v <= fuel ->
  parse_value fuel (write v k) = Some (v, k).

(** The text of [v] is at least as long as the fuel to read it. *)
Definition long_enough (v : value) : Prop :=
  is_json v = true ->
  forall k, need v + String.length k <= String.length (write v k).

(** InternalizeJSONProperty: the reviver is applied bottom-up, and each
    result replaces the property it was computed from before the reviver
    sees the holder.  A result [undefined] deletes the property (in an
    array it leaves a hole, which reads as [undefined]).  [A] is the
    reviver's result type and [inj] its embedding into the values. *)
Section Reviver.
Context {A : Type} (inj : A -> value) (reviver : string -> value -> result A).

Fixpoint internalize (name : string) (val : value) : result A :=
  match val with
  | VArr items =>
      try! items' <-
        (fix each (i : nat) (l : list value) : result (list value) :=
           match l with
           | [] => Ok []
           | x :: rest =>
               try! x' <- internalize (string_of_nat i) x;
               try! rest' <- each (S i) rest;
               Ok (inj x' :: rest')
           end) O items;
      reviver name (VArr items')
  | VObj props =>
      try! props' <-
        (fix each (l : list (string * value)) : result (list (string * value)) :=
           match l with
           | [] => Ok []
           | (key, x) :: rest =>
               try! x' <- internalize key x;
               try! rest' <- each rest;
               match inj x' with
               | VUndefined => Ok rest'
               | v' => Ok ((key, v') :: rest')
               end
           end) props;
      reviver name (VObj props')
  | _ => reviver name val
  end.

(** The elements of an array and the properties of an object, as
    [internalize] revives them. *)
Fixpoint internalize_items (i : nat) (l : list value) : result (list value) :=
  match l with
  | [] => Ok []
  | x :: rest =>
      try! x' <- internalize (string_of_nat i) x;
      try! rest' <- internalize_items (S i) rest;
      Ok (inj x' :: rest')
  end.

Fixpoint internalize_props (l : list (string * value))
  : result (list (string * value)) :=
  match l with
  | [] => Ok []
  | (key, x) :: rest =>
      try! x' <- internalize key x;
      try! rest' <- internalize_props rest;
      match inj x' with
      | VUndefined => Ok rest'
      | v' => Ok ((key, v') :: rest')
      end
  end.

(** [JSON.parse(text, reviver)] *)
Definition parse_with (text : string) : result A :=
  try! unfiltered <- parse text;
  internalize "" unfiltered.
End Reviver.

End JSON.

(** ** The file "cache.json" *)

Inductive File : Type :=
| Absent
| Unreadable (code : string)
| Contents (text : string).

Definition readFileSync (f : File) : result string :=
  match f with
  | Absent => Throw (FsError "ENOENT")
  | Unreadable code => Throw (FsError code)
  | Contents text => Ok text
  end.

Definition writeFileSync (f : File) (text : string) : result File :=
  match f with
  | Unreadable code => Throw (FsError code)
  | _ => Ok (Contents text)
  end.

(** ** src/apiCache.ts *)

Record CacheEntry : Type := {
  data : value;
  timeStored : Z;
  status : Z;
}.

(** The object a [CacheEntry] is at run time; the properties are in the
    order of the object literals of the request handler. *)
Definition entry_object (e : CacheEntry) : value :=
  VObj [("data", data e); ("status", VNum (status e)); ("timeStored", VNum (timeStored e))].

(** An asynchronous operation of a backend whose state has type [C]: the
    settled outcome of the promise it returns, and the state it leaves. *)
Definition Async (C A : Type) : Type := C -> Promise A * C.

(** [interface ApiCache]; the entry handed out by [get] is the stored
    object, or [undefined]. *)
Class ApiCache (C : Type) : Type := {
  contains : string -> Async C bool;
  delete : string -> Async C bool;
  get : string -> Async C value;
  set : string -> CacheEntry -> Async C unit;
  persist : Async C unit;
}.

Fixpoint height (v : value) : nat :=
  match v with
  | VArr items => S (fold_right (fun x n => Nat.max (height x) n) O items)
  | VObj props => S (fold_right (fun p n => Nat.max (height (snd p)) n) O props)
  | VMap entries =>
      S (fold_right (fun e n => Nat.max (Nat.max (height (fst e)) (height (snd e))) n)
           O entries)
  | _ => O
  end.

(** A Map whose keys and values are JSON values, as the entries written by
    [set] from JSON payloads are. *)
Definition json_entries (m : JsMap.t) : bool :=
  forallb (fun e => JSON.is_json (fst e) && JSON.is_json (snd e)) m.

Module LocalCache.

(** The object's field [map], and the file it is loaded from and
    persisted to. *)
Record t : Type := {
  map : JsMap.t;
  file : File;
}.

Definition contains (key : string) : Async t bool :=
  fun this => (Resolved (JsMap.has (map this) (VStr key)), this).

Definition delete (key : string) : Async t bool :=
  fun this =>
    let (removed, m) := JsMap.delete (map this) (VStr key) in
    (Resolved removed, {| map := m; file := file this |}).

Definition get (key : string) : Async t value :=
  fun this => (Resolved (JsMap.get (map this) (VStr key)), this).

Definition set (key : string) (entry : CacheEntry) : Async t unit :=
  fun this =>
    (Resolved tt,
     {| map := JsMap.set (map this) (VStr key) (entry_object entry);
        file := file this |}).

(** The reviver passed to JSON.parse by [tryLoadFromJson]. *)
Definition reviver (_ : string) (val : value) : result JsMap.t :=
  if is_object val then
    if strict_eq_string (prop val "dataType") "Map"
    then JsMap.of_iterable (prop val "value")
    else Ok []
  else Ok [].

Definition tryLoadFromJson (f : File) : result JsMap.t :=
  try! buffer <- readFileSync f;
  JSON.parse_with VMap reviver buffer.

(** The replacer passed to JSON.stringify by [saveCache]. *)
Definition replacer (_ : string) (val : value) : value :=
  match val with
  | VMap m => VObj [("dataType", VStr "Map"); ("value", JsMap.entries m)]
  | _ => val
  end.

(** Each Map met by the replacer adds three levels to the document. *)
Definition saveCache (cache : JsMap.t) (f : File) : result File :=
  match JSON.stringify_with (3 * height (VMap cache) + 1) replacer (VMap cache) with
  | Some (Some text) => writeFileSync f text
  | _ => Throw TypeError
  end.

(** [persist] is not [async]: an exception of [saveCache] leaves it as an
    exception, which the awaiting caller observes as a rejection. *)
Definition persist : Async t unit :=
  fun this =>
    match saveCache (map this) (file this) with
    | Ok f => (Resolved tt, {| map := map this; file := f |})
    | Throw e => (Rejected e, this)
    end.

(** [new LocalCache()] *)
Definition new (f : File) : result t :=
  try! m <- tryLoadFromJson f;
  Ok {| map := m; file := f |}.

End LocalCache.

(** The loader of the entry point that [src/apiCache.ts] carries after the
    module, which keeps the Map itself: its reviver hands back every value
    that is not a tagged Map as it is, and the cache is the parsed document
    when that is a Map and a new Map otherwise. *)
Definition cacheJson_reviver (_ : string) (val : value) : result value :=
  if is_object val then
    if strict_eq_string (prop val "dataType") "Map"
    then try! m <- JsMap.of_iterable (prop val "value"); Ok (VMap m)
    else Ok val
  else Ok val.

Definition cacheJson (f : File) : result value :=
  try! buffer <- readFileSync f;
  JSON.parse_with (fun v => v) cacheJson_reviver buffer.

Definition cache_of_cacheJson (f : File) : result JsMap.t :=
  try! document <- cacheJson f;
  match document with
  | VMap m => Ok m
  | _ => Ok []
  end.

(** The remote store and the connection to it.  A command is answered in
    the order it is issued.  [net] scripts the network: the head decides
    whether the next command fails, an empty script means no failure. *)
Module Redis.

Record t : Type := {
  db : list (string * (string * Z));   (* key, value, instant of expiry in ms *)
  now : Z;                             (* the store's clock in ms *)
  net : list (option exn);
  unhandled : list exn;                (* rejections of promises nobody awaits *)
}.

Definition with_db (r : t) (d : list (string * (string * Z))) : t :=
  {| db := d; now := now r; net := net r; unhandled := unhandled r |}.

Definition with_net (r : t) (n : list (option exn)) : t :=
  {| db := db r; now := now r; net := n; unhandled := unhandled r |}.

Definition elapse (ms : Z) (r : t) : t :=
  {| db := db r; now := (now r + ms)%Z; net := net r; unhandled := unhandled r |}.

(** A promise dropped by the caller: its rejection is handled by nobody. *)
Definition drop {A} (reply : result A) (r : t) : t :=
  match reply with
  | Ok _ => r
  | Throw e =>
      {| db := db r; now := now r; net := net r; unhandled := unhandled r ++ [e] |}
  end.

Fixpoint lookup (d : list (string * (string * Z))) (key : string)
  : option (string * Z) :=
  match d with
  | [] => None
  | (k, x) :: rest => if String.eqb k key then Some x else lookup rest key
  end.

Fixpoint remove (d : list (string * (string * Z))) (key : string)
  : list (string * (string * Z)) :=
  match d with
  | [] => []
  | (k, x) :: rest =>
      if String.eqb k key then remove rest key else (k, x) :: remove rest key
  end.

Definition live (r : t) (key : string) : option string :=
  match lookup (db r) key with
  | Some (v, expires) => if (now r <? expires)%Z then Some v else None
  | None => None
  end.

Definition count (r : t) (key : string) : Z :=
  match live r key with
  | Some _ => 1%Z
  | None => 0%Z
  end.

Definition command {A} (run : t -> result A * t) (r : t) : result A * t :=
  match net r with
  | Some e :: rest => (Throw e, with_net r rest)
  | None :: rest => run (with_net r rest)
  | [] => run r
  end.

Definition connect : t -> result unit * t :=
  command (fun r => (Ok tt, r)).

Definition EXISTS (key : string) : t -> result Z * t :=
  command (fun r => (Ok (count r key), r)).

Definition DEL (key : string) : t -> result Z * t :=
  command (fun r => (Ok (count r key), with_db r (remove (db r) key))).

Definition GET (key : string) : t -> result (option string) * t :=
  command (fun r => (Ok (live r key), r)).

Definition SETEX (key : string) (seconds : Z) (v : string) : t -> result unit * t :=
  command (fun r =>
    if (0 <? seconds)%Z
    then (Ok tt, with_db r ((key, (v, (now r + seconds * 1000)%Z)) :: remove (db r) key))
    else (Throw (ClientError "ERR invalid expire time in 'setex' command"), r)).

Definition SAVE : t -> result unit * t :=
  command (fun r => (Ok tt, r)).

End Redis.

(** [CACHE_TTL_SECONDS], from the integer the environment variable of
    that name holds when it is set. *)
Definition CACHE_TTL_SECONDS (env : option Z) : Z :=
  match env with
  | Some seconds => seconds
  | None => 1800%Z
  end.

Module RedisCache.

(** The private field [redis]: the client, with the store it talks to. *)
Definition t : Type := Redis.t.

(** [RedisCache.new()] *)
Definition new (r : Redis.t) : Promise t :=
  match Redis.connect r with
  | (Ok _, cache) => Resolved cache
  | (Throw error, _) => Rejected error
  end.

Definition contains (key : string) : Async t bool :=
  fun this =>
    match Redis.EXISTS key this with
    | (Ok n, this') => (Resolved (0 <? n)%Z, this')
    | (Throw error, this') => (Rejected error, this')
    end.

Definition delete (key : string) : Async t bool :=
  fun this =>
    match Redis.DEL key this with
    | (Ok n, this') => (Resolved (n =? 1)%Z, this')
    | (Throw error, this') => (Rejected error, this')
    end.

Definition get (key : string) : Async t value :=
  fun this =>
    match Redis.GET key this with
    | (Ok (Some raw), this') =>
        match JSON.parse raw with
        | Ok entry =>
            match entry with
            | VNull | VUndefined =>
                (Rejected (Thrown "entry not parsed correctly"), this')
            | _ => (Resolved entry, this')
            end
        | Throw error => (Rejected error, this')
        end
    | (Ok None, this') => (Resolved VUndefined, this')
    | (Throw error, this') => (Rejected error, this')
    end.

(** The promise of SETEX is not awaited. *)
Definition set (ttl : Z) (key : string) (entry : CacheEntry) : Async t unit :=
  fun this =>
    match JSON.stringify (entry_object entry) with
    | Some text =>
        let (reply, this') := Redis.SETEX key ttl text this in
        (Resolved tt, Redis.drop reply this')
    | None => (Rejected TypeError, this)
    end.

(** The promise of SAVE is not awaited. *)
Definition persist : Async t unit :=
  fun this =>
    let (reply, this') := Redis.SAVE this in
    (Resolved tt, Redis.drop reply this').

End RedisCache.

#[export] Instance LocalCache_ApiCache : ApiCache LocalCache.t := {
  contains := LocalCache.contains;
  delete := LocalCache.delete;
  get := LocalCache.get;
  set := LocalCache.set;
  persist := LocalCache.persist;
}.

Definition RedisCache_ApiCache (ttl : Z) : ApiCache RedisCache.t := {|
  contains := RedisCache.contains;
  delete := RedisCache.delete;
  get := RedisCache.get;
  set := RedisCache.set ttl;
  persist := RedisCache.persist;
|}.

(** ** The server entry point *)

(** [let cache: ApiCache], once the chain
    [RedisCache.new().then(...).catch(...)] has settled; [None] is a
    variable still [undefined]. *)
Inductive Backend : Type :=
| UseRedis (redisCache : RedisCache.t)
| UseLocal (localCache : LocalCache.t).

Definition select_cache (r : Redis.t) (f : File) : option Backend :=
  match RedisCache.new r with
  | Resolved redisCache => Some (UseRedis redisCache)
  | Rejected _ =>
      match LocalCache.new f with
      | Ok localCache => Some (UseLocal localCache)
      | Throw _ => None
      end
  end.

(** *** URLSearchParams *)

Definition URLSearchParams : Type := list (string * string).

Definition parseParams (query : list (string * string)) : URLSearchParams := query.

Definition params_has (params : URLSearchParams) (name : string) : bool :=
  existsb (fun p => String.eqb (fst p) name) params.

Definition params_delete (params : URLSearchParams) (name : string) : URLSearchParams :=
  filter (fun p => negb (String.eqb (fst p) name)) params.

Definition sanitizeParams (params : URLSearchParams) (toDelete : list string)
  : URLSearchParams :=
  fold_left
    (fun ps paramName =>
       if params_has ps paramName then params_delete ps paramName else ps)
    toDelete params.

Definition upper_hex_digit (n : nat) : ascii :=
  nth n (list_ascii_of_string "0123456789ABCDEF") "0"%char.

(** The application/x-www-form-urlencoded byte serializer. *)
Definition urlencode_byte (c : ascii) (k : string) : string :=
  let n := nat_of_ascii c in
  if Nat.eqb n 32 then String "+" k
  else if (Nat.leb 48 n && Nat.leb n 57) || (Nat.leb 65 n && Nat.leb n 90)
          || (Nat.leb 97 n && Nat.leb n 122)
          || Nat.eqb n 42 || Nat.eqb n 45 || Nat.eqb n 46 || Nat.eqb n 95
  then String c k
  else String "%" (String (upper_hex_digit (n / 16)) (String (upper_hex_digit (n mod 16)) k)).

Fixpoint urlencode (s : string) : string :=
  match s with
  | EmptyString => EmptyString
  | String c r => urlencode_byte c (urlencode r)
  end.

Fixpoint params_toString (params : URLSearchParams) : string :=
  match params with
  | [] => ""
  | [(name, v)] => urlencode name ++ "=" ++ urlencode v
  | (name, v) :: rest => urlencode name ++ "=" ++ urlencode v ++ "&" ++ params_toString rest
  end.

(** *** The request handler *)

Record Request : Type := {
  method : string;
  url : string;                      (* path and query string as received *)
  query : list (string * string);    (* the parsed query string *)
}.

(** [s.split("?")[0]] *)
Fixpoint before_question (s : string) : string :=
  match s with
  | EmptyString => EmptyString
  | String c r => if (c =? "?")%char then EmptyString else String c (before_question r)
  end.

(** The local variable [url]: the address that is logged. *)
Definition logged_url (req : Request) : string :=
  let url0 := before_question (url req) in
  match query req with
  | [] => url0
  | _ :: _ =>
      url0 ++ "?" ++ params_toString (sanitizeParams (parseParams (query req)) ["apiKey"])
  end.

Definition cacheKey (req : Request) : string :=
  method req ++ " " ++ url req.

(** How the call to the upstream API settles. *)
Inductive AxiosOutcome : Type :=
| Fulfilled (data : value) (status : Z)       (* [.then(response)] *)
| ErrorResponse (data : value) (status : Z)   (* [error.response] is set *)
| ErrorRequest                                (* no response was received *)
| ErrorOther (message : string).              (* the request could not be set up *)

Inductive Event : Type :=
| LogIn (m u : string)
| LogOut (m u : string)
| CacheGet (key : string)
| CacheDelete (key : string)
| CacheSet (key : string) (entry : CacheEntry)
| UpstreamRequest (m u : string)
| SendStatus (code : value)
| SendJson (code : value) (body : value).

(** White space and line terminators of one byte. *)
Definition is_white (c : ascii) : bool :=
  let n := nat_of_ascii c in
  Nat.eqb n 32 || (Nat.leb 9 n && Nat.leb n 13).

Fixpoint skip_white (s : string) : string :=
  match s with
  | EmptyString => s
  | String c r => if is_white c then skip_white r else s
  end.

(** StringToNumber on decimal integer text, surrounded by white space;
    [None] is NaN.  Other numeric strings are outside the integer model. *)
Definition StringToNumber (s : string) : option Z :=
  match skip_white s with
  | EmptyString => Some 0%Z
  | String c r =>
      let (negative, s1) :=
        if (c =? "-")%char then (true, r)
        else if (c =? "+")%char then (false, r)
        else (false, String c r) in
      let (d, rest) := JSON.read_digits s1 in
      match d, skip_white rest with
      | Nil, _ => None
      | _, EmptyString => Some (Z.of_int (if negative then Neg d else Pos d))
      | _, String _ _ => None
      end
  end.

(** ToNumber; [None] is NaN. *)
Fixpoint ToNumber (v : value) : option Z :=
  match v with
  | VUndefined => None
  | VNull => Some 0%Z
  | VBool b => Some (if b then 1%Z else 0%Z)
  | VNum n => Some n
  | VStr s => StringToNumber s
  | VArr [] => Some 0%Z
  | VArr [x] =>
      match x with
      | VUndefined | VNull => Some 0%Z
      | VBool _ | VObj _ | VMap _ => None
      | _ => ToNumber x
      end
  | VArr _ => None
  | VObj _ | VMap _ => None
  end.

(** [Date.now() - item.timeStored < CACHE_TTL_SECONDS * 1000] *)
Definition fresh (ttl now : Z) (item : value) : bool :=
  match ToNumber (prop item "timeStored") with
  | Some stored => (now - stored <? ttl * 1000)%Z
  | None => false
  end.

(** The answer from a cached item: [res.sendStatus(item.status)] when
    [item.data === null], else [res.status(item.status).json(item.data)]. *)
Definition cached_reply (item : value) : Event :=
  match prop item "data" with
  | VNull => SendStatus (prop item "status")
  | body => SendJson (prop item "status") body
  end.

(** The upstream call settled without an HTTP response. *)
Definition no_response (upstream : AxiosOutcome) : bool :=
  match upstream with
  | ErrorRequest | ErrorOther _ => true
  | Fulfilled _ _ | ErrorResponse _ _ => false
  end.

(** The handler goes on to the upstream API: [get] answered nothing, or an
    item that is not fresh. *)
Definition passes_cache (ttl now : Z) (item : value) : bool :=
  match item with
  | VUndefined | VNull => true
  | _ => negb (fresh ttl now item)
  end.

Fixpoint has_space (s : string) : bool :=
  match s with
  | EmptyString => false
  | String c r => (c =? " ")%char || has_space r
  end.

Record Run (C : Type) : Type := {
  trace : list Event;           (* what the handler did, in order *)
  settled : Promise unit;       (* the promise of the async handler *)
  floating : list exn;          (* rejections of the promises it did not await *)
  cache_after : C;
}.
Arguments trace {C} _.
Arguments settled {C} _.
Arguments floating {C} _.
Arguments cache_after {C} _.

Definition SPOONACULAR_API_BASE_URL : string := "https://api.spoonacular.com".

Definition rejection {A} (p : Promise A) : list exn :=
  match p with
  | Resolved _ => []
  | Rejected e => [e]
  end.

Section Handler.
Context {C : Type} {api : ApiCache C}.
Variable ttl : Z.

(** The part of the handler after the cache was consulted: the call to
    the upstream API and its [then] and [catch] callbacks.  [now] is
    [Date.now()] when the answer is stored. *)
Definition forward (req : Request) (now : Z) (upstream : AxiosOutcome)
    (before : list Event) (dropped : list exn) (cache : C) : Run C :=
  let store (entry : CacheEntry) (reply : Event) : Run C :=
    let (p, cache') := set (cacheKey req) entry cache in
    {| trace := before ++
                [LogOut (method req) (SPOONACULAR_API_BASE_URL ++ logged_url req);
                 UpstreamRequest (method req) (url req);
                 CacheSet (cacheKey req) entry;
                 reply];
       settled := Resolved tt;
       floating := dropped ++ rejection p;
       cache_after := cache' |} in
  match upstream with
  | Fulfilled d s =>
      store {| data := d; status := s; timeStored := now |} (SendJson (VNum s) d)
  | ErrorResponse d s =>
      store {| data := d; status := s; timeStored := now |} (SendJson (VNum s) d)
  | ErrorRequest =>
      store {| data := VNull; status := 500; timeStored := now |} (SendStatus (VNum 500))
  | ErrorOther _ =>
      store {| data := VNull; status := 500; timeStored := now |} (SendStatus (VNum 500))
  end.

(** [app.use(async (req, res) => ...)].  [now] is [Date.now()] at the
    freshness test and [later] when the upstream answer is stored. *)
Definition handler (req : Request) (now later : Z) (upstream : AxiosOutcome)
    (cache : C) : Run C :=
  let start := [LogIn (method req) (logged_url req); CacheGet (cacheKey req)] in
  match get (cacheKey req) cache with
  | (Rejected error, cache1) =>
      {| trace := start; settled := Rejected error; floating := [];
         cache_after := cache1 |}
  | (Resolved item, cache1) =>
      match item with
      | VUndefined | VNull => forward req later upstream start [] cache1
      | _ =>
          if fresh ttl now item then
            {| trace := start ++ [cached_reply item];
               settled := Resolved tt; floating := []; cache_after := cache1 |}
          else
            let (p, cache2) := delete (cacheKey req) cache1 in
            forward req later upstream (start ++ [CacheDelete (cacheKey req)])
              (rejection p) cache2
      end
  end.
End Handler.

(** ** Vocabulary of the statements about saving *)

(** The replacer of [saveCache] leaves a JSON value as it is. *)
Definition replaced_unchanged (v : value) : Prop :=
  JSON.is_json v = true ->
  forall fuel key, height v < fuel -> JSON.replace fuel LocalCache.replacer key v = Some v.

(** The document [saveCache] writes for a Map. *)
Definition saved_document (cache : JsMap.t) : value :=
  VObj [("dataType", VStr "Map"); ("value", JsMap.entries cache)].

(** ** Vocabulary of the statements about the Map and the handler *)

(** No two entries of the Map have the same key. *)
Fixpoint keys_distinct (m : JsMap.t) : bool :=
  match m with
  | [] => true
  | (k, _) :: rest => negb (JsMap.has rest k) && keys_distinct rest
  end.

(** No object inside the value carries the tag [dataType: "Map"]. *)
Fixpoint untagged (v : value) : bool :=
  match v with
  | VArr items => forallb untagged items
  | VObj props =>
      negb (strict_eq_string (obj_lookup props "dataType") "Map")
      && forallb (fun p => untagged (snd p)) props
  | VMap entries => forallb (fun e => untagged (fst e) && untagged (snd e)) entries
  | _ => true
  end.

Definition untagged_entries (m : JsMap.t) : bool :=
  forallb (fun e => untagged (fst e) && untagged (snd e)) m.

(** [process.on("exit", ...)] of the entry point that keeps the Map itself:
    the same replacer and the same call of writeFileSync as [saveCache]. *)
Definition write_cache_on_exit (cache : JsMap.t) (f : File) : result File :=
  LocalCache.saveCache cache f.

Definition is_reply (ev : Event) : bool :=
  match ev with
  | SendStatus _ | SendJson _ _ => true
  | _ => false
  end.

Definition is_upstream (ev : Event) : bool :=
  match ev with
  | UpstreamRequest _ _ => true
  | _ => false
  end.

(** The entry that the [then] and [catch] callbacks of the handler store
    for an upstream outcome. *)
Definition outcome_entry (now : Z) (upstream : AxiosOutcome) : CacheEntry :=
  match upstream with
  | Fulfilled d s => {| data := d; status := s; timeStored := now |}
  | ErrorResponse d s => {| data := d; status := s; timeStored := now |}
  | ErrorRequest => {| data := VNull; status := 500; timeStored := now |}
  | ErrorOther _ => {| data := VNull; status := 500; timeStored := now |}
  end.

(** The answer of those callbacks. *)
Definition outcome_reply (upstream : AxiosOutcome) : Event :=
  match upstream with
  | Fulfilled d s => SendJson (VNum s) d
  | ErrorResponse d s => SendJson (VNum s) d
  | ErrorRequest => SendStatus (VNum 500)
  | ErrorOther _ => SendStatus (VNum 500)
  end.

(** The backends that [new LocalCache()] and the operations of the
    interface lead to. *)
Inductive reachable : LocalCache.t -> Prop :=
| reach_new (f : File) (c : LocalCache.t) :
    LocalCache.new f = Ok c -> reachable c
| reach_set (key : string) (e : CacheEntry) (c : LocalCache.t) :
    reachable c -> reachable (snd (LocalCache.set key e c))
| reach_delete (key : string) (c : LocalCache.t) :
    reachable c -> reachable (snd (LocalCache.delete key c))
| reach_persist (c : LocalCache.t) :
    reachable c -> reachable (snd (LocalCache.persist c)).

(** A string key with the object of a cache entry. *)
Definition holds_entry (kv : value * value) : Prop :=
  exists key e, kv = (VStr key, entry_object e).

(** The request handler of the entry point that keeps the Map itself: the
    same steps on the Map, with [cache.has] deciding whether there is an
    item and [CACHE_TTL_SECONDS] fixed to 1800.  Reading [timeStored] off an
    item that is [undefined] or [null] throws.  The result is what the
    handler logged, asked and answered, and the Map it leaves. *)
Definition entry_point_handler (req : Request) (now later : Z)
    (upstream : AxiosOutcome) (cache : JsMap.t) : result (list Event * JsMap.t) :=
  let logIn := LogIn (method req) (logged_url req) in
  let key := VStr (cacheKey req) in
  let forward (cache' : JsMap.t) : result (list Event * JsMap.t) :=
    Ok ([logIn;
         LogOut (method req) (SPOONACULAR_API_BASE_URL ++ logged_url req);
         UpstreamRequest (method req) (url req);
         outcome_reply upstream],
        JsMap.set cache' key (entry_object (outcome_entry later upstream))) in
  if JsMap.has cache key then
    match JsMap.get cache key with
    | VUndefined | VNull => Throw TypeError
    | item =>
        if fresh 1800 now item then Ok ([logIn; cached_reply item], cache)
        else forward (snd (JsMap.delete cache key))
    end
  else forward cache.

(** The events that are not calls of the cache. *)
Definition observable (ev : Event) : bool :=
  match ev with
  | CacheGet _ | CacheDelete _ | CacheSet _ _ => false
  | _ => true
  end.

(** * Induction on values *)

Lemma value_ind (P : value -> Prop) :
  P VUndefined -> P VNull -> (forall b, P (VBool b)) -> (forall n, P (VNum n)) ->
  (forall s, P (VStr s)) ->
  (forall items, Forall P items -> P (VArr items)) ->
  (forall props, Forall (fun p => P (snd p)) props -> P (VObj props)) ->
  (forall entries, Forall (fun e => P (fst e) /\ P (snd e)) entries -> P (VMap entries)) ->
  forall v, P v.
Proof.
  intros Hu Hn Hb Hz Hs Ha Ho Hm.
  fix IH 1.
  intros [ | | b | n | s | items | props | entries ].
  - exact Hu.
  - exact Hn.
  - apply Hb.
  - apply Hz.
  - apply Hs.
  - apply Ha. induction items as [|x rest IHl]; constructor; [apply IH | exact IHl].
  - apply Ho. induction props as [|[k x] rest IHl]; constructor; [apply IH | exact IHl].
  - apply Hm. induction entries as [|[k x] rest IHl]; constructor;
      [split; apply IH | exact IHl].
Qed.

(** * Numbers *)

Lemma read_digits_write_uint d k :
  JSON.starts_digit k = false ->
  JSON.read_digits (JSON.write_uint d k) = (d, k).
Proof.
  intros Hk. induction d; simpl; try (rewrite IHd; reflexivity).
  destruct k as [|c r]; simpl in *; try reflexivity.
  destruct (JSON.digit_of c); [discriminate|reflexivity].
Qed.

Lemma unorm_D0 d d' : unorm d = D0 d' -> d' = Nil.
Proof.
  induction d; simpl; intros H; try discriminate; auto.
  inversion H; reflexivity.
Qed.

Lemma int_digits_to_uint p : JSON.int_digits (Pos.to_uint p) = true.
Proof.
  assert (H : unorm (Pos.to_uint p) = Pos.to_uint p).
  { rewrite <- (DecimalPos.Unsigned.to_of (Pos.to_uint p)).
    rewrite DecimalPos.Unsigned.of_to. reflexivity. }
  pose proof (DecimalPos.Unsigned.to_uint_nonnil p) as Hnil.
  destruct (Pos.to_uint p) as [|d| | | | | | | | |] eqn:E; try reflexivity.
  - congruence.
  - apply unorm_D0 in H. subst d. reflexivity.
Qed.

Lemma write_uint_head d k :
  d <> Nil -> exists c r, JSON.write_uint d k = String c r /\ JSON.starts_digit (String c r) = true.
Proof.
  destruct d; intros H; try congruence; simpl; eexists _, _; split; reflexivity.
Qed.

Lemma read_number_write_int n k :
  JSON.number_end k = true ->
  JSON.read_number (JSON.write_int n k) = Some (n, k).
Proof.
  unfold JSON.number_end. intros Hk. apply andb_true_iff in Hk as [Hd Hf].
  apply negb_true_iff in Hd. apply negb_true_iff in Hf.
  unfold JSON.write_int, JSON.read_number.
  pose proof (DecimalZ.of_to n) as Hn.
  destruct n as [|p|p]; simpl Z.to_int in *.
  - simpl. destruct k as [|c r]; simpl in *.
    + reflexivity.
    + destruct (JSON.digit_of c); [discriminate|]. simpl. rewrite Hf. reflexivity.
  - pose proof (DecimalPos.Unsigned.to_uint_nonnil p) as Hnil.
    pose proof (int_digits_to_uint p) as Hi.
    pose proof (read_digits_write_uint (Pos.to_uint p) k Hd) as Hr.
    destruct (Pos.to_uint p) eqn:E; try congruence;
      simpl JSON.write_uint in *; cbn [Ascii.eqb Bool.eqb];
      rewrite Hr, Hi, Hf; cbn [andb negb]; rewrite Hn; reflexivity.
  - pose proof (int_digits_to_uint p) as Hi.
    pose proof (read_digits_write_uint (Pos.to_uint p) k Hd) as Hr.
    cbn [Ascii.eqb Bool.eqb]. rewrite Hr, Hi, Hf. cbn [andb negb]. rewrite Hn. reflexivity.
Qed.

Lemma write_int_head n k :
  exists c r, JSON.write_int n k = String c r /\
    (JSON.starts_digit (String c r) = true \/ c = "-"%char).
Proof.
  unfold JSON.write_int. destruct n as [|p|p]; simpl Z.to_int.
  - simpl. eexists _, _; split; [reflexivity|left; reflexivity].
  - destruct (write_uint_head (Pos.to_uint p) k (DecimalPos.Unsigned.to_uint_nonnil p))
      as (c & r & E & H).
    exists c, r; auto.
  - eexists _, _; split; [reflexivity|right; reflexivity].
Qed.

(** * Strings *)

Lemma read_chars_write_char c k :
  JSON.read_chars (JSON.write_char c k) = JSON.cons_chars (String c) (JSON.read_chars k).
Proof.
  destruct c as [[] [] [] [] [] [] [] []]; reflexivity.
Qed.

Lemma read_chars_write_chars s k :
  JSON.read_chars (JSON.write_chars s (String dquote k)) = Some (s, k).
Proof.
  induction s as [|c r IH]; simpl.
  - reflexivity.
  - rewrite read_chars_write_char, IH. reflexivity.
Qed.

(** * Values *)

Lemma parse_value_null f k : JSON.parse_value (S f) (String "n" (String "u" (String "l" (String "l" k)))) = Some (VNull, k).
Proof. reflexivity. Qed.

Lemma parse_value_string f r :
  JSON.parse_value (S f) (String dquote r) =
  match JSON.read_chars r with
  | Some (str, r') => Some (VStr str, r')
  | None => None
  end.
Proof. reflexivity. Qed.

Lemma parse_value_array f r :
  JSON.parse_value (S f) (String "[" r) =
  match JSON.skip_ws r with
  | String c' r' =>
      if (c' =? "]")%char then Some (VArr [], r')
      else match JSON.parse_elements f r with
           | Some (items, r'') => Some (VArr items, r'')
           | None => None
           end
  | EmptyString => None
  end.
Proof. reflexivity. Qed.

Lemma parse_value_object f r :
  JSON.parse_value (S f) (String "{" r) =
  match JSON.skip_ws r with
  | String c' r' =>
      if (c' =? "}")%char then Some (VObj [], r')
      else match JSON.parse_members f r with
           | Some (props, r'') => Some (VObj (fold_left obj_define props []), r'')
           | None => None
           end
  | EmptyString => None
  end.
Proof. reflexivity. Qed.

Lemma parse_value_number f c r :
  JSON.starts_digit (String c r) = true \/ c = "-"%char ->
  JSON.parse_value (S f) (String c r) =
  match JSON.read_number (String c r) with
  | Some (n, r') => Some (VNum n, r')
  | None => None
  end.
Proof.
  intros [H | ->]; [|reflexivity].
  destruct c as [[] [] [] [] [] [] [] []]; try discriminate H; reflexivity.
Qed.

Lemma write_VArr items k :
  JSON.write (VArr items) k = String "[" (JSON.write_elements items (String "]" k)).
Proof. reflexivity. Qed.

Lemma write_VObj props k :
  JSON.write (VObj props) k = String "{" (JSON.write_members props true (String "}" k)).
Proof. reflexivity. Qed.

Lemma digit_opens c r :
  JSON.starts_digit (String c r) = true \/ c = "-"%char -> JSON.opens_value (String c r).
Proof.
  intros H. exists c, r. split; [reflexivity|].
  destruct H as [H | ->]; [|repeat split; reflexivity].
  destruct c as [[] [] [] [] [] [] [] []]; try discriminate H; repeat split; reflexivity.
Qed.

Lemma write_opens v k : JSON.is_json v = true -> JSON.opens_value (JSON.write v k).
Proof.
  destruct v as [ | | [] | n | s | items | props | entries ]; simpl; intros H;
    try discriminate H;
    try (eexists _, _; split; [reflexivity | repeat split; reflexivity]).
  destruct (write_int_head n k) as (c & r & E & Hc). rewrite E. apply digit_opens, Hc.
Qed.

Lemma skip_ws_opens s : JSON.opens_value s -> JSON.skip_ws s = s.
Proof. intros (c & r & -> & Hw & _). simpl. rewrite Hw. reflexivity. Qed.

Lemma write_elements_cons x rest k :
  JSON.is_json x = true ->
  JSON.write_elements (x :: rest) k =
  JSON.write x (match rest with
                | [] => k
                | _ :: _ => String "," (JSON.write_elements rest k)
                end).
Proof. destruct x; simpl; intros H; try discriminate H; reflexivity. Qed.

Lemma write_members_cons name x rest first k :
  JSON.is_json x = true ->
  JSON.write_members ((name, x) :: rest) first k =
  let body := JSON.write_string name
                (String ":" (JSON.write x (JSON.write_members rest false k))) in
  if first then body else String "," body.
Proof. destruct x; simpl; intros H; try discriminate H; reflexivity. Qed.

Lemma write_members_rest rest k :
  forallb (fun p => JSON.is_json (snd p)) rest = true ->
  JSON.write_members rest false k =
  match rest with
  | [] => k
  | _ :: _ => String "," (JSON.write_members rest true k)
  end.
Proof.
  destruct rest as [|[name x] rest]; [reflexivity|].
  simpl forallb. intros H. apply andb_true_iff in H as [Hx _].
  rewrite !write_members_cons by exact Hx. reflexivity.
Qed.

Lemma parse_elements_write items :
  Forall JSON.reads_back items -> forallb JSON.is_json items = true -> items <> [] ->
  forall k fuel, JSON.need_elements items <= fuel ->
  JSON.parse_elements fuel (JSON.write_elements items (String "]" k)) = Some (items, k).
Proof.
  induction 1 as [|x rest Hx Hrest IH]; [congruence|].
  simpl forallb. intros Hj _ k fuel Hfuel. apply andb_true_iff in Hj as [Hjx Hjrest].
  unfold JSON.need_elements in Hfuel; simpl in Hfuel; fold (JSON.need_elements rest) in Hfuel.
  destruct fuel as [|fuel]; [lia|].
  rewrite write_elements_cons by exact Hjx.
  cbn [JSON.parse_elements].
  destruct rest as [|y rest'].
  - rewrite (Hx Hjx) by (reflexivity || lia). reflexivity.
  - specialize (IH Hjrest ltac:(congruence) k fuel ltac:(lia)).
    remember (JSON.write_elements (y :: rest') (String "]" k)) as tail.
    rewrite (Hx Hjx) by (reflexivity || lia).
    simpl. rewrite IH. reflexivity.
Qed.

Lemma parse_members_step f name r :
  JSON.parse_members (S f) (String dquote (JSON.write_chars name (String dquote (String ":" r)))) =
  match JSON.parse_value f r with
  | Some (v, r3) =>
      match JSON.skip_ws r3 with
      | String c' r4 =>
          if (c' =? ",")%char then
            match JSON.parse_members f r4 with
            | Some (ps, r5) => Some ((name, v) :: ps, r5)
            | None => None
            end
          else if (c' =? "}")%char then Some ([(name, v)], r4)
          else None
      | EmptyString => None
      end
  | None => None
  end.
Proof.
  cbn [JSON.parse_members JSON.skip_ws JSON.is_ws]. simpl Ascii.eqb.
  replace (JSON.is_ws dquote) with false by reflexivity.
  rewrite read_chars_write_chars. reflexivity.
Qed.

Lemma parse_members_write props :
  Forall (fun p => JSON.reads_back (snd p)) props ->
  forallb (fun p => JSON.is_json (snd p)) props = true -> props <> [] ->
  forall k fuel, JSON.need_members props <= fuel ->
  JSON.parse_members fuel (JSON.write_members props true (String "}" k)) = Some (props, k).
Proof.
  induction 1 as [|[name x] rest Hx Hrest IH]; [congruence|].
  simpl forallb. intros Hj _ k fuel Hfuel. apply andb_true_iff in Hj as [Hjx Hjrest].
  simpl in Hx.
  unfold JSON.need_members in Hfuel; simpl in Hfuel; fold (JSON.need_members rest) in Hfuel.
  destruct fuel as [|fuel]; [lia|].
  rewrite write_members_cons by exact Hjx. cbv zeta. cbn iota.
  unfold JSON.write_string. rewrite parse_members_step.
  rewrite write_members_rest by exact Hjrest.
  destruct rest as [|y rest'].
  - rewrite (Hx Hjx) by (reflexivity || lia). reflexivity.
  - specialize (IH Hjrest ltac:(congruence) k fuel ltac:(lia)).
    remember (JSON.write_members (y :: rest') true (String "}" k)) as tail.
    rewrite (Hx Hjx) by (reflexivity || lia).
    simpl. rewrite IH. reflexivity.
Qed.

Lemma distinct_app_fresh A n R :
  JSON.distinct (A ++ n :: R)%list = true ->
  forallb (fun a => negb (String.eqb a n)) A = true.
Proof.
  induction A as [|a A IH]; simpl; [reflexivity|].
  intros H. apply andb_true_iff in H as [Ha Hd].
  rewrite List.existsb_app in Ha. simpl in Ha.
  apply negb_true_iff, orb_false_iff in Ha as [_ Ha].
  apply orb_false_iff in Ha as [Ha _].
  rewrite Ha. simpl. auto.
Qed.

Lemma obj_define_fresh acc p :
  forallb (fun a => negb (String.eqb a (fst p))) (List.map fst acc) = true ->
  obj_define acc p = (acc ++ [p])%list.
Proof.
  induction acc as [|q acc IH]; simpl; [reflexivity|].
  intros H. apply andb_true_iff in H as [Hq Hacc].
  apply negb_true_iff in Hq. rewrite Hq, IH by exact Hacc. reflexivity.
Qed.

Lemma fold_obj_define props : forall acc,
  JSON.distinct (List.map fst acc ++ List.map fst props)%list = true ->
  fold_left obj_define props acc = (acc ++ props)%list.
Proof.
  induction props as [|p rest IH]; intros acc H; simpl.
  - rewrite List.app_nil_r. reflexivity.
  - simpl in H. rewrite obj_define_fresh by (eapply distinct_app_fresh; exact H).
    rewrite IH.
    + rewrite <- List.app_assoc. reflexivity.
    + rewrite map_app. simpl. rewrite <- List.app_assoc. exact H.
Qed.

Theorem parse_value_write v : JSON.reads_back v.
Proof.
  induction v as [ | | b | n | s | items IH | props IH | entries IH ] using value_ind;
    intros Hj k fuel Hk Hfuel; try discriminate Hj;
    (destruct fuel as [|fuel]; [simpl in Hfuel; lia|]).
  - reflexivity.
  - destruct b; reflexivity.
  - destruct (write_int_head n k) as (c & r & E & Hc).
    simpl JSON.write. rewrite E, (parse_value_number _ _ _ Hc), <- E.
    rewrite read_number_write_int by exact Hk. reflexivity.
  - simpl JSON.write. unfold JSON.write_string.
    rewrite parse_value_string, read_chars_write_chars. reflexivity.
  - rewrite write_VArr, parse_value_array. simpl in Hj.
    destruct items as [|x rest]; [reflexivity|].
    assert (Ho : JSON.opens_value (JSON.write_elements (x :: rest) (String "]" k))).
    { simpl in Hj. apply andb_true_iff in Hj as [Hx _].
      rewrite write_elements_cons by exact Hx. apply write_opens, Hx. }
    rewrite (skip_ws_opens _ Ho).
    destruct Ho as (c & r & E & _ & Hc & _).
    rewrite E at 1. rewrite Hc.
    rewrite parse_elements_write; auto; [congruence|].
    simpl in Hfuel. unfold JSON.need_elements. simpl. lia.
  - rewrite write_VObj, parse_value_object. simpl in Hj.
    apply andb_true_iff in Hj as [Hj Hd].
    destruct props as [|[name x] rest]; [reflexivity|].
    assert (Hx : JSON.is_json x = true).
    { simpl in Hj. apply andb_true_iff in Hj as [Hx _]. exact Hx. }
    rewrite write_members_cons at 1 by exact Hx. cbv zeta. cbn iota.
    unfold JSON.write_string at 1.
    cbn [JSON.skip_ws]. replace (JSON.is_ws dquote) with false by reflexivity.
    replace (dquote =? "}")%char with false by reflexivity.
    rewrite parse_members_write; auto; [|congruence|].
    + rewrite fold_obj_define by exact Hd. reflexivity.
    + simpl in Hfuel. unfold JSON.need_members. simpl. lia.
Qed.

(** * The fuel of [JSON.parse] suffices *)

Lemma length_write_uint d k : String.length k <= String.length (JSON.write_uint d k).
Proof. induction d; simpl; lia. Qed.

Lemma length_write_int n k : S (String.length k) <= String.length (JSON.write_int n k).
Proof.
  unfold JSON.write_int. destruct n as [|p|p]; simpl Z.to_int.
  - simpl. lia.
  - pose proof (DecimalPos.Unsigned.to_uint_nonnil p) as Hnil.
    destruct (Pos.to_uint p) as [|d|d|d|d|d|d|d|d|d|d]; try congruence; simpl;
      pose proof (length_write_uint d k); lia.
  - simpl. pose proof (length_write_uint (Pos.to_uint p) k). lia.
Qed.

Lemma length_write_char c k : S (String.length k) <= String.length (JSON.write_char c k).
Proof. destruct c as [[] [] [] [] [] [] [] []]; simpl; lia. Qed.

Lemma length_write_chars s k : String.length k <= String.length (JSON.write_chars s k).
Proof.
  induction s as [|c r IH]; simpl; [lia|].
  pose proof (length_write_char c (JSON.write_chars r k)). lia.
Qed.

Lemma length_write_string s k :
  2 + String.length k <= String.length (JSON.write_string s k).
Proof.
  unfold JSON.write_string. simpl.
  pose proof (length_write_chars s (String dquote k)). simpl in *. lia.
Qed.

Lemma length_write_elements items :
  Forall JSON.long_enough items -> forallb JSON.is_json items = true ->
  forall k, JSON.need_elements items + String.length k
            <= S (String.length (JSON.write_elements items k)).
Proof.
  induction 1 as [|x rest Hx Hrest IH]; intros Hj k; [simpl; lia|].
  simpl in Hj. apply andb_true_iff in Hj as [Hjx Hjrest].
  rewrite write_elements_cons by exact Hjx.
  change (JSON.need_elements (x :: rest)) with (S (JSON.need x + JSON.need_elements rest)).
  destruct rest as [|y rest'].
  - pose proof (Hx Hjx k). simpl JSON.need_elements. lia.
  - pose proof (IH Hjrest k) as H2.
    remember (JSON.write_elements (y :: rest') k) as tail.
    pose proof (Hx Hjx (String "," tail)) as H1.
    simpl String.length in H1. lia.
Qed.

Lemma length_write_members props :
  Forall (fun p => JSON.long_enough (snd p)) props ->
  forallb (fun p => JSON.is_json (snd p)) props = true ->
  forall first k, JSON.need_members props + String.length k
                  <= String.length (JSON.write_members props first k).
Proof.
  induction 1 as [|[name x] rest Hx Hrest IH]; intros Hj first k; [simpl; lia|].
  simpl in Hj. apply andb_true_iff in Hj as [Hjx Hjrest]. simpl in Hx.
  rewrite write_members_cons by exact Hjx. cbv zeta.
  change (JSON.need_members ((name, x) :: rest)) with (S (JSON.need x + JSON.need_members rest)).
  pose proof (length_write_string name
                (String ":" (JSON.write x (JSON.write_members rest false k)))) as H1.
  pose proof (Hx Hjx (JSON.write_members rest false k)) as H2.
  pose proof (IH Hjrest false k) as H3.
  simpl String.length in H1.
  destruct first; simpl String.length; lia.
Qed.

Lemma length_write v : JSON.long_enough v.
Proof.
  induction v as [ | | b | n | s | items IH | props IH | entries IH ] using value_ind;
    intros Hj k; try discriminate Hj.
  - simpl. lia.
  - destruct b; simpl; lia.
  - simpl. pose proof (length_write_int n k). lia.
  - simpl JSON.write. pose proof (length_write_string s k). simpl JSON.need. lia.
  - rewrite write_VArr. simpl in Hj.
    pose proof (length_write_elements items IH Hj (String "]" k)) as H.
    change (JSON.need (VArr items)) with (S (JSON.need_elements items)).
    simpl String.length in *. lia.
  - rewrite write_VObj. simpl in Hj. apply andb_true_iff in Hj as [Hj _].
    pose proof (length_write_members props IH Hj true (String "}" k)) as H.
    change (JSON.need (VObj props)) with (S (JSON.need_members props)).
    simpl String.length in *. lia.
Qed.

(** [JSON.parse(JSON.stringify(v))] is [v] for every JSON value. *)
Theorem parse_stringify v :
  JSON.is_json v = true ->
  exists text, JSON.stringify v = Some text /\ JSON.parse text = Ok v.
Proof.
  intros Hj. exists (JSON.write v "").
  split; [destruct v; try reflexivity; discriminate Hj|].
  unfold JSON.parse.
  rewrite parse_value_write; [reflexivity | exact Hj | reflexivity |].
  pose proof (length_write v Hj ""). simpl in *. lia.
Qed.

(** [JSON.parse] never yields [undefined]. *)
Lemma parse_value_defined fuel s v r :
  JSON.parse_value fuel s = Some (v, r) -> v <> VUndefined.
Proof.
  destruct fuel as [|fuel]; [discriminate|].
  cbn [JSON.parse_value].
  destruct (JSON.skip_ws s) as [|c r0]; [discriminate|].
  unfold option_map.
  repeat match goal with
         | |- context [if ?b then _ else _] => destruct b
         | |- context [match ?x with Some _ => _ | None => _ end] => destruct x
         | |- context [match ?x with EmptyString => _ | String _ _ => _ end] => destruct x
         | |- context [let (_, _) := ?x in _] => destruct x
         end;
    simpl; intros H; inversion H; discriminate.
Qed.

Lemma parse_defined text v : JSON.parse text = Ok v -> v <> VUndefined.
Proof.
  unfold JSON.parse.
  destruct (JSON.parse_value _ text) as [[v' rest]|] eqn:E; [|discriminate].
  destruct (JSON.skip_ws rest); [|discriminate].
  intros H. inversion H; subst. eapply parse_value_defined, E.
Qed.

(** * The reviver of [tryLoadFromJson] *)

Lemma internalize_VArr {A} (inj : A -> value) reviver name items :
  JSON.internalize inj reviver name (VArr items) =
  bind_result (JSON.internalize_items inj reviver O items)
    (fun items' => reviver name (VArr items')).
Proof. reflexivity. Qed.

Lemma internalize_VObj {A} (inj : A -> value) reviver name props :
  JSON.internalize inj reviver name (VObj props) =
  bind_result (JSON.internalize_props inj reviver props)
    (fun props' => reviver name (VObj props')).
Proof. reflexivity. Qed.

Lemma lookup_among_maps props name lit :
  Forall (fun p => exists m, snd p = VMap m) props ->
  strict_eq_string (obj_lookup props name) lit = false.
Proof.
  induction 1 as [|p rest [m Hp] _ IH]; simpl; [reflexivity|].
  destruct (String.eqb (fst p) name); [rewrite Hp; reflexivity | exact IH].
Qed.

Lemma internalize_items_reviver items :
  Forall (fun x => forall name, JSON.internalize VMap LocalCache.reviver name x = Ok []) items ->
  forall i, exists items', JSON.internalize_items VMap LocalCache.reviver i items = Ok items'.
Proof.
  induction 1 as [|x rest Hx _ IH]; intros i; simpl.
  - eexists; reflexivity.
  - rewrite Hx. simpl. destruct (IH (S i)) as [rest' ->]. simpl. eexists; reflexivity.
Qed.

Lemma internalize_props_reviver props :
  Forall (fun p => forall name, JSON.internalize VMap LocalCache.reviver name (snd p) = Ok [])
    props ->
  exists props', JSON.internalize_props VMap LocalCache.reviver props = Ok props' /\
                 Forall (fun p => exists m, snd p = VMap m) props'.
Proof.
  induction 1 as [|[key x] rest Hx _ (rest' & IH & Hrest)]; simpl.
  - eexists; split; [reflexivity|constructor].
  - simpl in Hx. rewrite Hx, IH. simpl.
    eexists; split; [reflexivity|]. constructor; [eexists; reflexivity | exact Hrest].
Qed.

(** Whatever the document, the reviver answers the empty Map: by the time it
    sees an object, the property [dataType] of the object has itself been
    revived into a Map, which is not the string ["Map"]. *)
Theorem internalize_reviver v : forall name,
  JSON.internalize VMap LocalCache.reviver name v = Ok [].
Proof.
  induction v as [ | | b | n | s | items IH | props IH | entries IH ] using value_ind;
    intros name; try reflexivity.
  - rewrite internalize_VArr.
    destruct (internalize_items_reviver items IH O) as [items' ->]. reflexivity.
  - rewrite internalize_VObj.
    destruct (internalize_props_reviver props IH) as (props' & -> & Hmaps).
    simpl. unfold LocalCache.reviver. simpl.
    rewrite (lookup_among_maps props' "dataType" "Map" Hmaps). reflexivity.
Qed.

Theorem tryLoadFromJson_empty f m : LocalCache.tryLoadFromJson f = Ok m -> m = [].
Proof.
  unfold LocalCache.tryLoadFromJson, JSON.parse_with.
  destruct (readFileSync f) as [text|]; [|discriminate]. simpl.
  destruct (JSON.parse text) as [v|]; [|discriminate]. simpl.
  rewrite internalize_reviver. congruence.
Qed.

(** A file holding any JSON document loads, as the empty Map. *)
Theorem tryLoadFromJson_parsed text v :
  JSON.parse text = Ok v -> LocalCache.tryLoadFromJson (Contents text) = Ok [].
Proof.
  intros H. unfold LocalCache.tryLoadFromJson, JSON.parse_with. simpl.
  rewrite H. simpl. apply internalize_reviver.
Qed.

(** * Map operations *)

Section MapLaws.
Variable k : value.
Hypothesis k_primitive : JsMap.same_value_zero k k = true.

Lemma JsMap_get_set m v : JsMap.get (JsMap.set m k v) k = v.
Proof.
  induction m as [|[k' v'] rest IH]; simpl.
  - rewrite k_primitive. reflexivity.
  - destruct (JsMap.same_value_zero k' k) eqn:E; simpl; rewrite E; auto.
Qed.

Lemma JsMap_has_set m v : JsMap.has (JsMap.set m k v) k = true.
Proof.
  induction m as [|[k' v'] rest IH]; simpl.
  - rewrite k_primitive. reflexivity.
  - destruct (JsMap.same_value_zero k' k) eqn:E; simpl; rewrite E; auto.
Qed.
End MapLaws.

Lemma JsMap_delete_present m k :
  fst (JsMap.delete m k) = JsMap.has m k.
Proof.
  induction m as [|[k' v'] rest IH]; simpl; [reflexivity|].
  destruct (JsMap.delete rest k) as [b rest'].
  destruct (JsMap.same_value_zero k' k); simpl in *; auto.
Qed.

Lemma JsMap_has_delete m k : JsMap.has (snd (JsMap.delete m k)) k = false.
Proof.
  induction m as [|[k' v'] rest IH]; simpl; [reflexivity|].
  destruct (JsMap.delete rest k) as [b rest'].
  destruct (JsMap.same_value_zero k' k) eqn:E; simpl in *; [|rewrite E]; auto.
Qed.

Lemma JsMap_get_absent m k : JsMap.has m k = false -> JsMap.get m k = VUndefined.
Proof.
  induction m as [|[k' v'] rest IH]; simpl; [reflexivity|].
  destruct (JsMap.same_value_zero k' k); simpl; [discriminate|auto].
Qed.

Lemma JsMap_delete_absent m k : JsMap.has m k = false -> JsMap.delete m k = (false, m).
Proof.
  induction m as [|[k' v'] rest IH]; simpl; [reflexivity|].
  destruct (JsMap.same_value_zero k' k); simpl; [discriminate|].
  intros H. rewrite IH by exact H. reflexivity.
Qed.

Lemma same_value_zero_string s : JsMap.same_value_zero (VStr s) (VStr s) = true.
Proof. apply String.eqb_refl. Qed.

(** * The remote store *)

Lemma Redis_lookup_remove d key : Redis.lookup (Redis.remove d key) key = None.
Proof.
  induction d as [|[k x] rest IH]; simpl; [reflexivity|].
  destruct (String.eqb k key) eqn:E; simpl; [|rewrite E]; exact IH.
Qed.

Lemma Redis_command_calm {A} (run : Redis.t -> result A * Redis.t) r :
  Redis.net r = [] -> Redis.command run r = run r.
Proof. unfold Redis.command. intros ->. reflexivity. Qed.

Lemma Redis_command_fails {A} (run : Redis.t -> result A * Redis.t) r e rest :
  Redis.net r = Some e :: rest -> Redis.command run r = (Throw e, Redis.with_net r rest).
Proof. unfold Redis.command. intros ->. reflexivity. Qed.

(** * The JSON text of a cache entry *)

Lemma parse_write v : JSON.is_json v = true -> JSON.parse (JSON.write v "") = Ok v.
Proof.
  intros Hj. destruct (parse_stringify v Hj) as (text & Hs & Hp).
  destruct v; try discriminate Hj; simpl in Hs; inversion Hs; subst; exact Hp.
Qed.

Lemma entry_object_json e :
  JSON.is_json (data e) = true -> JSON.is_json (entry_object e) = true.
Proof. intros H. simpl. rewrite H. reflexivity. Qed.

Lemma entry_object_fields e :
  prop (entry_object e) "data" = data e /\
  prop (entry_object e) "timeStored" = VNum (timeStored e) /\
  prop (entry_object e) "status" = VNum (status e).
Proof. repeat split; reflexivity. Qed.

(** * File/Memory backend *)

Lemma LocalCache_set_get key e c :
  let c' := snd (LocalCache.set key e c) in
  LocalCache.set key e c = (Resolved tt, c') /\
  LocalCache.get key c' = (Resolved (entry_object e), c').
Proof.
  simpl. split; [reflexivity|].
  unfold LocalCache.get. simpl.
  rewrite JsMap_get_set by apply same_value_zero_string. reflexivity.
Qed.

Lemma LocalCache_delete_absent key c :
  JsMap.has (LocalCache.map c) (VStr key) = false ->
  LocalCache.delete key c = (Resolved false, c).
Proof.
  intros H. unfold LocalCache.delete.
  rewrite JsMap_delete_absent by exact H. destruct c; reflexivity.
Qed.

Lemma LocalCache_set_delete key e c :
  let c1 := snd (LocalCache.set key e c) in
  let c2 := snd (LocalCache.delete key c1) in
  LocalCache.delete key c1 = (Resolved true, c2) /\
  LocalCache.get key c2 = (Resolved VUndefined, c2) /\
  LocalCache.delete key c2 = (Resolved false, c2).
Proof.
  simpl.
  pose proof (JsMap_delete_present
                (JsMap.set (LocalCache.map c) (VStr key) (entry_object e)) (VStr key)) as Hd.
  pose proof (JsMap_has_delete
                (JsMap.set (LocalCache.map c) (VStr key) (entry_object e)) (VStr key)) as Hh.
  rewrite JsMap_has_set in Hd by apply same_value_zero_string.
  unfold LocalCache.delete, LocalCache.get. simpl LocalCache.map.
  destruct (JsMap.delete (JsMap.set (LocalCache.map c) (VStr key) (entry_object e)) (VStr key))
    as [b m'] eqn:E.
  simpl in Hd, Hh. subst b. simpl.
  rewrite (JsMap_get_absent _ _ Hh), (JsMap_delete_absent _ _ Hh).
  repeat split.
Qed.

(** * Networked backend *)

Lemma RedisCache_set_calm ttl key e r :
  (0 < ttl)%Z -> Redis.net r = [] ->
  RedisCache.set ttl key e r =
  (Resolved tt,
   Redis.with_db r
     ((key, (JSON.write (entry_object e) "", (Redis.now r + ttl * 1000)%Z))
        :: Redis.remove (Redis.db r) key)).
Proof.
  intros Httl Hnet. unfold RedisCache.set.
  change (JSON.stringify (entry_object e)) with (Some (JSON.write (entry_object e) "")).
  cbv iota beta. unfold Redis.SETEX. rewrite Redis_command_calm by exact Hnet.
  apply Z.ltb_lt in Httl. rewrite Httl. reflexivity.
Qed.

Lemma RedisCache_get_live key r text v :
  Redis.net r = [] -> Redis.live r key = Some text -> JSON.parse text = Ok v ->
  v <> VNull ->
  RedisCache.get key r = (Resolved v, r).
Proof.
  intros Hnet Hlive Hparse Hnull. unfold RedisCache.get, Redis.GET.
  rewrite Redis_command_calm by exact Hnet. rewrite Hlive, Hparse.
  pose proof (parse_defined _ _ Hparse).
  destruct v; try reflexivity; congruence.
Qed.

Lemma RedisCache_get_absent key r :
  Redis.net r = [] -> Redis.live r key = None ->
  RedisCache.get key r = (Resolved VUndefined, r).
Proof.
  intros Hnet Hlive. unfold RedisCache.get, Redis.GET.
  rewrite Redis_command_calm by exact Hnet. rewrite Hlive. reflexivity.
Qed.

Lemma RedisCache_delete_calm key r :
  Redis.net r = [] ->
  RedisCache.delete key r =
  (Resolved (match Redis.live r key with Some _ => true | None => false end),
   Redis.with_db r (Redis.remove (Redis.db r) key)).
Proof.
  intros Hnet. unfold RedisCache.delete, Redis.DEL.
  rewrite Redis_command_calm by exact Hnet. unfold Redis.count.
  destruct (Redis.live r key); reflexivity.
Qed.

Lemma Redis_live_written r key text expires ms :
  (Redis.now r + ms < expires)%Z ->
  Redis.live (Redis.elapse ms (Redis.with_db r ((key, (text, expires)) :: Redis.remove (Redis.db r) key))) key
  = Some text.
Proof.
  intros H. unfold Redis.live. simpl. rewrite String.eqb_refl.
  apply Z.ltb_lt in H. rewrite H. reflexivity.
Qed.

Lemma Redis_live_removed r key :
  Redis.live (Redis.with_db r (Redis.remove (Redis.db r) key)) key = None.
Proof. unfold Redis.live. simpl. rewrite Redis_lookup_remove. reflexivity. Qed.

Lemma Redis_elapse_0 r : Redis.elapse 0 r = r.
Proof. destruct r. unfold Redis.elapse. simpl. rewrite Z.add_0_r. reflexivity. Qed.

Lemma RedisCache_set_get ttl key e r :
  (0 < ttl)%Z -> Redis.net r = [] -> JSON.is_json (data e) = true ->
  let r' := snd (RedisCache.set ttl key e r) in
  RedisCache.set ttl key e r = (Resolved tt, r') /\
  forall ms, (0 <= ms < ttl * 1000)%Z ->
    RedisCache.get key (Redis.elapse ms r') = (Resolved (entry_object e), Redis.elapse ms r').
Proof.
  intros Httl Hnet Hj. rewrite RedisCache_set_calm by assumption. simpl.
  split; [reflexivity|]. intros ms Hms.
  apply RedisCache_get_live with (text := JSON.write (entry_object e) "").
  - exact Hnet.
  - apply Redis_live_written. lia.
  - apply parse_write, entry_object_json, Hj.
  - discriminate.
Qed.

(** C6: for every key and entry, [get] after [set] hands out the entry,
    with [data] (be it [null]), [timeStored] and [status] as they were
    stored.  The File/Memory backend keeps the object; the networked backend
    reads back the JSON text it wrote, for an entry whose [data] is a JSON
    document, while the connection does not fail and the entry has not
    expired in the store. *)
Theorem set_then_get_returns_entry
    (key : string) (e : CacheEntry) (c : LocalCache.t) (ttl : Z) (r : RedisCache.t) :
  (0 < ttl)%Z -> Redis.net r = [] -> JSON.is_json (data e) = true ->
  (let c' := snd (LocalCache.set key e c) in
   LocalCache.set key e c = (Resolved tt, c') /\
   LocalCache.get key c' = (Resolved (entry_object e), c')) /\
  (let r' := snd (RedisCache.set ttl key e r) in
   RedisCache.set ttl key e r = (Resolved tt, r') /\
   RedisCache.get key r' = (Resolved (entry_object e), r') /\
   forall ms, (0 <= ms < ttl * 1000)%Z ->
     fst (RedisCache.get key (Redis.elapse ms r')) = Resolved (entry_object e)) /\
  (prop (entry_object e) "data" = data e /\
   prop (entry_object e) "timeStored" = VNum (timeStored e) /\
   prop (entry_object e) "status" = VNum (status e)).
Proof.
  intros Httl Hnet Hj. split; [apply LocalCache_set_get|].
  split; [|apply entry_object_fields].
  destruct (RedisCache_set_get ttl key e r Httl Hnet Hj) as [Hset Hget].
  cbv zeta in *. split; [exact Hset|]. split.
  - specialize (Hget 0%Z ltac:(lia)). rewrite Redis_elapse_0 in Hget. exact Hget.
  - intros ms Hms. rewrite (Hget ms Hms). reflexivity.
Qed.

Lemma set_then_get_returns_entry_witness :
  let key := "GET /recipes?query=pasta" in
  let e := {| data := VNull; timeStored := 1689240000000; status := 500 |} in
  let c := {| LocalCache.map := []; LocalCache.file := Absent |} in
  let r := {| Redis.db := []; Redis.now := 1689240000000; Redis.net := [];
              Redis.unhandled := [] |} in
  (0 < 1800)%Z /\ Redis.net r = [] /\ JSON.is_json (data e) = true /\
  LocalCache.get key (snd (LocalCache.set key e c))
  = (Resolved (entry_object e), snd (LocalCache.set key e c)) /\
  RedisCache.get key (snd (RedisCache.set 1800 key e r))
  = (Resolved (entry_object e), snd (RedisCache.set 1800 key e r)).
Proof.
  intros key e c r.
  split; [reflexivity|]. split; [reflexivity|]. split; [reflexivity|].
  pose proof (set_then_get_returns_entry key e c 1800 r eq_refl eq_refl eq_refl)
    as [[_ Hlocal] [[_ [Hredis _]] _]].
  split; [exact Hlocal | exact Hredis].
Defined.

(** C7: [delete] after [set] answers true, a following [get] answers
    [undefined] and a second [delete] answers false; [delete] of a key
    without entry answers false and changes nothing.  For the networked
    backend while the connection does not fail. *)
Theorem delete_after_set_removes_entry
    (key : string) (e : CacheEntry) (c : LocalCache.t) (ttl : Z) (r : RedisCache.t) :
  (0 < ttl)%Z -> Redis.net r = [] ->
  (let c1 := snd (LocalCache.set key e c) in
   let c2 := snd (LocalCache.delete key c1) in
   LocalCache.delete key c1 = (Resolved true, c2) /\
   LocalCache.get key c2 = (Resolved VUndefined, c2) /\
   LocalCache.delete key c2 = (Resolved false, c2)) /\
  (JsMap.has (LocalCache.map c) (VStr key) = false ->
   LocalCache.delete key c = (Resolved false, c)) /\
  (let r1 := snd (RedisCache.set ttl key e r) in
   let r2 := snd (RedisCache.delete key r1) in
   RedisCache.delete key r1 = (Resolved true, r2) /\
   RedisCache.get key r2 = (Resolved VUndefined, r2) /\
   fst (RedisCache.delete key r2) = Resolved false) /\
  (Redis.live r key = None -> fst (RedisCache.delete key r) = Resolved false).
Proof.
  intros Httl Hnet.
  split; [apply LocalCache_set_delete|].
  split; [apply LocalCache_delete_absent|].
  split.
  - rewrite RedisCache_set_calm by assumption. cbv zeta. cbn [snd].
    set (r1 := Redis.with_db r _).
    assert (Hnet1 : Redis.net r1 = []) by exact Hnet.
    assert (Hlive : Redis.live r1 key = Some (JSON.write (entry_object e) "")).
    { pose proof (Redis_live_written r key (JSON.write (entry_object e) "")
                    (Redis.now r + ttl * 1000) 0 ltac:(lia)) as H.
      rewrite Redis_elapse_0 in H. exact H. }
    rewrite (RedisCache_delete_calm key r1 Hnet1), Hlive. cbn [snd].
    set (r2 := Redis.with_db r1 _).
    assert (Hnet2 : Redis.net r2 = []) by exact Hnet.
    pose proof (Redis_live_removed r1 key) as Hgone. fold r2 in Hgone.
    split; [reflexivity|]. split.
    + apply RedisCache_get_absent; assumption.
    + rewrite (RedisCache_delete_calm key r2 Hnet2), Hgone. reflexivity.
  - intros Hlive. rewrite (RedisCache_delete_calm key r Hnet), Hlive. reflexivity.
Qed.

Lemma delete_after_set_removes_entry_witness :
  let key := "GET /recipes?query=pasta" in
  let e := {| data := VObj [("id", VNum 1)]; timeStored := 1689240000000; status := 200 |} in
  let c := {| LocalCache.map := []; LocalCache.file := Absent |} in
  let r := {| Redis.db := []; Redis.now := 1689240000000; Redis.net := [];
              Redis.unhandled := [] |} in
  (0 < 1800)%Z /\ Redis.net r = [] /\
  fst (LocalCache.delete key (snd (LocalCache.set key e c))) = Resolved true /\
  fst (RedisCache.delete key (snd (RedisCache.set 1800 key e r))) = Resolved true /\
  fst (RedisCache.delete key r) = Resolved false.
Proof.
  intros key e c r.
  split; [reflexivity|]. split; [reflexivity|].
  pose proof (delete_after_set_removes_entry key e c 1800 r eq_refl eq_refl)
    as [[Hlocal _] [_ [[Hredis _] Habsent]]].
  cbv zeta in Hlocal, Hredis.
  split; [rewrite Hlocal; reflexivity|].
  split; [rewrite Hredis; reflexivity | exact (Habsent eq_refl)].
Defined.

(** C9: when the store holds for the key a raw value that parses to JSON
    [null], [get] rejects with the reason "entry not parsed correctly"; it
    resolves with [undefined] exactly when the store answered that the key
    has no value. *)
Theorem RedisCache_get_null_is_rejected (key : string) (r : RedisCache.t) :
  (forall raw r', Redis.GET key r = (Ok (Some raw), r') -> JSON.parse raw = Ok VNull ->
     RedisCache.get key r = (Rejected (Thrown "entry not parsed correctly"), r')) /\
  (fst (RedisCache.get key r) = Resolved VUndefined <-> fst (Redis.GET key r) = Ok None).
Proof.
  unfold RedisCache.get. split.
  - intros raw r' -> ->. reflexivity.
  - destruct (Redis.GET key r) as [[[raw|]|err] r']; simpl.
    + split; [|discriminate].
      destruct (JSON.parse raw) as [v|err] eqn:E; simpl; [|discriminate].
      pose proof (parse_defined _ _ E).
      destruct v; simpl; intros H'; try discriminate H'; congruence.
    + split; reflexivity.
    + split; discriminate.
Qed.

Lemma RedisCache_get_null_is_rejected_witness :
  let r := {| Redis.db := [("k", (" null ", 10%Z))]; Redis.now := 0%Z; Redis.net := [];
              Redis.unhandled := [] |} in
  Redis.GET "k" r = (Ok (Some " null "), r) /\ JSON.parse " null " = Ok VNull /\
  RedisCache.get "k" r = (Rejected (Thrown "entry not parsed correctly"), r).
Proof.
  intros r. split; [reflexivity|]. split; [reflexivity|].
  exact (proj1 (RedisCache_get_null_is_rejected "k" r) " null " r eq_refl eq_refl).
Defined.

(** What holds of the claim C4: a failed EXISTS, DEL or GET rejects the
    promise of [contains], [delete] or [get] with the error of the command. *)
Lemma RedisCache_failure_propagates key r err rest :
  Redis.net r = Some err :: rest ->
  RedisCache.contains key r = (Rejected err, Redis.with_net r rest) /\
  RedisCache.delete key r = (Rejected err, Redis.with_net r rest) /\
  RedisCache.get key r = (Rejected err, Redis.with_net r rest).
Proof.
  intros Hnet.
  unfold RedisCache.contains, RedisCache.delete, RedisCache.get,
    Redis.EXISTS, Redis.DEL, Redis.GET.
  rewrite !(Redis_command_fails _ r err rest Hnet). repeat split.
Qed.

(** [set] resolves whatever becomes of SETEX. *)
Lemma RedisCache_set_resolves ttl key e r :
  fst (RedisCache.set ttl key e r) = Resolved tt.
Proof.
  unfold RedisCache.set.
  change (JSON.stringify (entry_object e)) with (Some (JSON.write (entry_object e) "")).
  cbv iota beta. destruct (Redis.SETEX _ _ _ _). reflexivity.
Qed.

Lemma RedisCache_set_swallows_failure ttl key e r err rest :
  Redis.net r = Some err :: rest ->
  RedisCache.set ttl key e r =
  (Resolved tt, Redis.drop (@Throw unit err) (Redis.with_net r rest)).
Proof.
  intros Hnet. unfold RedisCache.set.
  change (JSON.stringify (entry_object e)) with (Some (JSON.write (entry_object e) "")).
  cbv iota beta. unfold Redis.SETEX.
  rewrite (Redis_command_fails _ r err rest Hnet). reflexivity.
Qed.

(** C4 at a failing input: the connection is reset while SETEX is under way;
    the promise of [set] resolves, nothing is stored, and the error is left
    to nobody. *)
Theorem RedisCache_set_resolves_when_SETEX_fails :
  let e := {| data := VObj [("id", VNum 1)]; timeStored := 1689240000000; status := 200 |} in
  let r := {| Redis.db := []; Redis.now := 1689240000000;
              Redis.net := [Some (ClientError "ECONNRESET")]; Redis.unhandled := [] |} in
  RedisCache.set 1800 "GET /recipes?query=pasta" e r =
  (Resolved tt,
   {| Redis.db := []; Redis.now := 1689240000000; Redis.net := [];
      Redis.unhandled := [ClientError "ECONNRESET"] |}) /\
  fst (RedisCache.get "GET /recipes?query=pasta"
         (snd (RedisCache.set 1800 "GET /recipes?query=pasta" e r))) = Resolved VUndefined.
Proof. split; reflexivity. Qed.

(** * Construction and selection *)

(** What holds of the claim C2: a file that holds a JSON document, of
    whatever shape, gives a backend with an empty Map. *)
Lemma LocalCache_new_parsed text v :
  JSON.parse text = Ok v ->
  LocalCache.new (Contents text) = Ok {| LocalCache.map := []; LocalCache.file := Contents text |}.
Proof.
  intros H. unfold LocalCache.new.
  rewrite (tryLoadFromJson_parsed text v H). reflexivity.
Qed.

(** C2 at failing inputs: without the file, with a file that cannot be
    read, and with a file that is not JSON text, the constructor throws. *)
Theorem LocalCache_new_throws_without_file :
  LocalCache.new Absent = Throw (FsError "ENOENT") /\
  LocalCache.new (Unreadable "EACCES") = Throw (FsError "EACCES") /\
  LocalCache.new (Contents "") = Throw SyntaxError /\
  LocalCache.new (Contents (json_text "{'dataType':'Map','value':[")) = Throw SyntaxError.
Proof. repeat split; reflexivity. Qed.

(** What holds of the claim C5. *)
Lemma select_cache_connected r f :
  fst (Redis.connect r) = Ok tt ->
  select_cache r f = Some (UseRedis (snd (Redis.connect r))).
Proof.
  unfold select_cache, RedisCache.new.
  destruct (Redis.connect r) as [[[]|err] r']; simpl; [reflexivity|discriminate].
Qed.

Lemma select_cache_fallback r f err :
  fst (Redis.connect r) = Throw err ->
  select_cache r f =
  match LocalCache.new f with
  | Ok localCache => Some (UseLocal localCache)
  | Throw _ => None
  end.
Proof.
  unfold select_cache, RedisCache.new.
  destruct (Redis.connect r) as [[[]|err'] r']; simpl; [discriminate|reflexivity].
Qed.

(** C5 at a failing input: the store cannot be reached and there is no file
    "cache.json"; the variable [cache] stays [undefined]. *)
Theorem select_cache_holds_no_backend :
  let r := {| Redis.db := []; Redis.now := 0%Z;
              Redis.net := [Some (ClientError "ECONNREFUSED")]; Redis.unhandled := [] |} in
  RedisCache.new r = Rejected (ClientError "ECONNREFUSED") /\
  LocalCache.new Absent = Throw (FsError "ENOENT") /\
  select_cache r Absent = None.
Proof. repeat split; reflexivity. Qed.

(** C1 at a failing input: a Map with one entry is saved and loaded again;
    the Map that comes back is empty. *)
Theorem saveCache_tryLoadFromJson_loses_entry :
  let e := {| data := VObj [("id", VNum 1)]; timeStored := 1689240000000; status := 200 |} in
  let cache := snd (LocalCache.set "GET /recipes?query=pasta" e
                      {| LocalCache.map := []; LocalCache.file := Absent |}) in
  let document := json_text
    "{'dataType':'Map','value':[['GET /recipes?query=pasta',{'data':{'id':1},'status':200,'timeStored':1689240000000}]]}" in
  LocalCache.map cache = [(VStr "GET /recipes?query=pasta", entry_object e)] /\
  LocalCache.saveCache (LocalCache.map cache) (LocalCache.file cache) = Ok (Contents document) /\
  LocalCache.tryLoadFromJson (Contents document) = Ok [].
Proof.
  intros e cache document.
  split; [reflexivity|]. split; vm_compute; reflexivity.
Qed.

(** The loader of the earlier entry point reads the same document back in
    full. *)
Example cache_of_cacheJson_keeps_entry :
  let e := {| data := VObj [("id", VNum 1)]; timeStored := 1689240000000; status := 200 |} in
  let document := json_text
    "{'dataType':'Map','value':[['GET /recipes?query=pasta',{'data':{'id':1},'status':200,'timeStored':1689240000000}]]}" in
  cache_of_cacheJson (Contents document) =
  Ok [(VStr "GET /recipes?query=pasta", entry_object e)].
Proof. vm_compute. reflexivity. Qed.

(** * The request handler *)

Lemma params_has_delete ps name : params_has (params_delete ps name) name = false.
Proof.
  unfold params_has, params_delete.
  induction ps as [|p rest IH]; simpl; [reflexivity|].
  destruct (String.eqb (fst p) name) eqn:E; simpl; [|rewrite E]; exact IH.
Qed.

Lemma params_has_delete_other ps name other :
  params_has ps name = false -> params_has (params_delete ps other) name = false.
Proof.
  unfold params_has, params_delete.
  induction ps as [|p rest IH]; simpl; [reflexivity|].
  intros H. apply orb_false_iff in H as [Hp Hrest].
  destruct (negb (String.eqb (fst p) other)); simpl; [rewrite Hp|]; auto.
Qed.

Lemma sanitizeParams_keeps_absent toDelete : forall ps name,
  params_has ps name = false -> params_has (sanitizeParams ps toDelete) name = false.
Proof.
  unfold sanitizeParams.
  induction toDelete as [|d rest IH]; intros ps name H; simpl; [exact H|].
  apply IH. destruct (params_has ps d); [apply params_has_delete_other|]; exact H.
Qed.

(** Every parameter named in [toDelete] is gone after [sanitizeParams]. *)
Lemma sanitizeParams_deletes toDelete : forall ps name,
  In name toDelete -> params_has (sanitizeParams ps toDelete) name = false.
Proof.
  induction toDelete as [|d rest IH]; intros ps name Hin; [destruct Hin|].
  change (sanitizeParams ps (d :: rest))
    with (sanitizeParams (if params_has ps d then params_delete ps d else ps) rest).
  destruct (String.eqb d name) eqn:E.
  - apply String.eqb_eq in E. subst d. apply sanitizeParams_keeps_absent.
    destruct (params_has ps name) eqn:H; [apply params_has_delete | exact H].
  - apply IH. destruct Hin as [Heq | Hin]; [|exact Hin].
    subst d. rewrite String.eqb_refl in E. discriminate.
Qed.

Lemma method_then_url m1 u1 : forall m2 u2,
  has_space m1 = false -> has_space m2 = false ->
  m1 ++ " " ++ u1 = m2 ++ " " ++ u2 -> m1 = m2 /\ u1 = u2.
Proof.
  induction m1 as [|c m1 IH]; intros [|c2 m2] u2 H1 H2 H; simpl in *.
  - inversion H. auto.
  - inversion H; subst c2. simpl in H2. discriminate.
  - inversion H; subst c. simpl in H1. discriminate.
  - injection H as Hc Hrest. subst c2.
    apply orb_false_iff in H1 as [_ H1]. apply orb_false_iff in H2 as [_ H2].
    destruct (IH m2 u2 H1 H2 Hrest) as [-> ->]. auto.
Qed.

(** C3 as stated fails: two GET requests for the same path and the same
    query but for the value of [apiKey] get different cache keys, and each
    key spells out the [apiKey] it came with. *)
Lemma cacheKey_differs_by_apiKey :
  let r1 := {| method := "GET"; url := "/recipes?query=pasta&apiKey=ALICE";
               query := [("query", "pasta"); ("apiKey", "ALICE")] |} in
  let r2 := {| method := "GET"; url := "/recipes?query=pasta&apiKey=BOB";
               query := [("query", "pasta"); ("apiKey", "BOB")] |} in
  method r1 = method r2 /\
  before_question (url r1) = before_question (url r2) /\
  params_delete (query r1) "apiKey" = params_delete (query r2) "apiKey" /\
  cacheKey r1 = "GET /recipes?query=pasta&apiKey=ALICE" /\
  cacheKey r2 = "GET /recipes?query=pasta&apiKey=BOB" /\
  cacheKey r1 <> cacheKey r2.
Proof.
  intros r1 r2.
  split; [reflexivity|]. split; [vm_compute; reflexivity|].
  split; [vm_compute; reflexivity|].
  split; [vm_compute; reflexivity|]. split; [vm_compute; reflexivity|].
  intros H. apply (f_equal String.length) in H. vm_compute in H. discriminate H.
Qed.

(** C3 amended: the cache key is the method, a space and the address as it
    was received, so two requests share a key exactly when they have the same
    method and the same address, [apiKey] included; the parameter [apiKey]
    is removed from the address that is logged, and only there. *)
Theorem cacheKey_is_method_and_received_url (r1 r2 : Request) :
  has_space (method r1) = false -> has_space (method r2) = false ->
  cacheKey r1 = method r1 ++ " " ++ url r1 /\
  (cacheKey r1 = cacheKey r2 <-> method r1 = method r2 /\ url r1 = url r2) /\
  params_has (sanitizeParams (parseParams (query r1)) ["apiKey"]) "apiKey" = false.
Proof.
  intros H1 H2. split; [reflexivity|]. split.
  - unfold cacheKey. split.
    + apply method_then_url; assumption.
    + intros [-> ->]. reflexivity.
  - apply sanitizeParams_deletes. left. reflexivity.
Qed.

Lemma cacheKey_is_method_and_received_url_witness :
  let r1 := {| method := "GET"; url := "/recipes?query=pasta&apiKey=ALICE";
               query := [("query", "pasta"); ("apiKey", "ALICE")] |} in
  let r2 := {| method := "GET"; url := "/recipes?query=pasta&apiKey=BOB";
               query := [("query", "pasta"); ("apiKey", "BOB")] |} in
  has_space (method r1) = false /\ has_space (method r2) = false /\
  (cacheKey r1 = cacheKey r2 <-> method r1 = method r2 /\ url r1 = url r2) /\
  logged_url r1 = "/recipes?query=pasta" /\ logged_url r2 = "/recipes?query=pasta".
Proof.
  intros r1 r2. split; [reflexivity|]. split; [reflexivity|].
  split; [|split; reflexivity].
  exact (proj1 (proj2 (cacheKey_is_method_and_received_url r1 r2 eq_refl eq_refl))).
Defined.

Lemma fresh_entry ttl now e :
  fresh ttl now (entry_object e) = (now - timeStored e <? ttl * 1000)%Z.
Proof. reflexivity. Qed.

Lemma cached_reply_entry e :
  cached_reply (entry_object e) =
  match data e with
  | VNull => SendStatus (VNum (status e))
  | body => SendJson (VNum (status e)) body
  end.
Proof. reflexivity. Qed.

Section HandlerFacts.
Context {C : Type} {api : ApiCache C}.
Variables (ttl : Z) (req : Request) (now later : Z).

Let start : list Event := [LogIn (method req) (logged_url req); CacheGet (cacheKey req)].

(** What [forward] does, whatever the upstream outcome: it logs, calls
    upstream, stores one entry under the cache key and answers. *)
Lemma forward_trace upstream before dropped cache :
  exists entry reply,
    forward req later upstream before dropped cache =
    {| trace := before ++
                [LogOut (method req) (SPOONACULAR_API_BASE_URL ++ logged_url req);
                 UpstreamRequest (method req) (url req);
                 CacheSet (cacheKey req) entry; reply];
       settled := Resolved tt;
       floating := dropped ++ rejection (fst (set (cacheKey req) entry cache));
       cache_after := snd (set (cacheKey req) entry cache) |}.
Proof.
  destruct upstream; unfold forward;
    match goal with
    | |- context [set (cacheKey req) ?e cache] =>
        exists e; destruct (set (cacheKey req) e cache); eexists; reflexivity
    end.
Qed.

Lemma forward_no_response upstream before dropped cache :
  no_response upstream = true ->
  let entry := {| data := VNull; status := 500; timeStored := later |} in
  forward req later upstream before dropped cache =
  {| trace := before ++
              [LogOut (method req) (SPOONACULAR_API_BASE_URL ++ logged_url req);
               UpstreamRequest (method req) (url req);
               CacheSet (cacheKey req) entry; SendStatus (VNum 500)];
     settled := Resolved tt;
     floating := dropped ++ rejection (fst (set (cacheKey req) entry cache));
     cache_after := snd (set (cacheKey req) entry cache) |}.
Proof.
  destruct upstream; intros H; try discriminate H; unfold forward; cbv zeta;
    destruct (set (cacheKey req) _ cache); reflexivity.
Qed.

(** C8: a cached entry is answered from the cache exactly when
    [now - timeStored < CACHE_TTL_SECONDS * 1000]; otherwise the handler
    deletes it and then goes to the upstream API as it does on a miss. *)
Theorem handler_serves_fresh_entries_only upstream cache e cache1 :
  get (cacheKey req) cache = (Resolved (entry_object e), cache1) ->
  ((now - timeStored e < ttl * 1000)%Z <->
   handler ttl req now later upstream cache =
   {| trace := start ++ [cached_reply (entry_object e)];
      settled := Resolved tt; floating := []; cache_after := cache1 |}) /\
  (~ (now - timeStored e < ttl * 1000)%Z ->
   handler ttl req now later upstream cache =
   forward req later upstream (start ++ [CacheDelete (cacheKey req)])
     (rejection (fst (delete (cacheKey req) cache1)))
     (snd (delete (cacheKey req) cache1)) /\
   exists entry reply,
     trace (handler ttl req now later upstream cache) =
     (start ++ [CacheDelete (cacheKey req);
                LogOut (method req) (SPOONACULAR_API_BASE_URL ++ logged_url req);
                UpstreamRequest (method req) (url req);
                CacheSet (cacheKey req) entry; reply])%list).
Proof.
  intros Hget.
  assert (Hstale : ~ (now - timeStored e < ttl * 1000)%Z ->
            handler ttl req now later upstream cache =
            forward req later upstream (start ++ [CacheDelete (cacheKey req)])
              (rejection (fst (delete (cacheKey req) cache1)))
              (snd (delete (cacheKey req) cache1))).
  { intros H. unfold handler. rewrite Hget. cbn iota beta.
    change (entry_object e) with (VObj [("data", data e); ("status", VNum (status e));
                                        ("timeStored", VNum (timeStored e))]).
    cbn iota. fold (entry_object e). rewrite fresh_entry.
    apply Z.ltb_nlt in H. rewrite H.
    destruct (delete (cacheKey req) cache1). reflexivity. }
  split.
  - split.
    + intros H. unfold handler. rewrite Hget. cbn iota beta.
      change (entry_object e) with (VObj [("data", data e); ("status", VNum (status e));
                                          ("timeStored", VNum (timeStored e))]).
      cbn iota. fold (entry_object e). rewrite fresh_entry.
      apply Z.ltb_lt in H. rewrite H. reflexivity.
    + intros H. destruct (Z.lt_decidable (now - timeStored e) (ttl * 1000)) as [|Hn];
        [assumption|exfalso].
      rewrite (Hstale Hn) in H.
      destruct (forward_trace upstream (start ++ [CacheDelete (cacheKey req)])
                  (rejection (fst (delete (cacheKey req) cache1)))
                  (snd (delete (cacheKey req) cache1))) as (entry & reply & E).
      rewrite E in H. apply (f_equal trace) in H. simpl in H.
      unfold start in H. simpl in H. inversion H.
  - intros Hn. split; [exact (Hstale Hn)|].
    rewrite (Hstale Hn).
    destruct (forward_trace upstream (start ++ [CacheDelete (cacheKey req)])
                (rejection (fst (delete (cacheKey req) cache1)))
                (snd (delete (cacheKey req) cache1))) as (entry & reply & E).
    rewrite E. exists entry, reply. reflexivity.
Qed.

(** C10: when the handler goes to the upstream API and the call settles
    without an HTTP response, the handler stores
    [{data: null, status: 500, timeStored: Date.now()}] under the cache
    key of the request and answers 500; the stored entry is fresh for
    as long as any other. *)
Theorem handler_caches_upstream_failure upstream cache item cache1 :
  get (cacheKey req) cache = (Resolved item, cache1) ->
  passes_cache ttl now item = true ->
  no_response upstream = true ->
  let entry := {| data := VNull; status := 500; timeStored := later |} in
  (exists before dropped cache2,
     handler ttl req now later upstream cache =
     {| trace := before ++
                 [LogOut (method req) (SPOONACULAR_API_BASE_URL ++ logged_url req);
                  UpstreamRequest (method req) (url req);
                  CacheSet (cacheKey req) entry; SendStatus (VNum 500)];
        settled := Resolved tt;
        floating := dropped ++ rejection (fst (set (cacheKey req) entry cache2));
        cache_after := snd (set (cacheKey req) entry cache2) |}) /\
  (forall t, fresh ttl t (entry_object entry) = (t - later <? ttl * 1000)%Z) /\
  cached_reply (entry_object entry) = SendStatus (VNum 500).
Proof.
  intros Hget Hpass Hup entry.
  split; [|split; reflexivity].
  unfold handler. rewrite Hget. cbn iota beta.
  destruct item; unfold passes_cache in Hpass;
    try (apply negb_true_iff in Hpass; rewrite Hpass;
         destruct (delete (cacheKey req) cache1) as [p cache2]);
    eexists _, _, _; apply forward_no_response; exact Hup.
Qed.
End HandlerFacts.

Lemma handler_serves_fresh_entries_only_witness :
  let req := {| method := "GET"; url := "/recipes?query=pasta";
                query := [("query", "pasta")] |} in
  let e := {| data := VObj [("id", VNum 1)]; timeStored := 1689240000000; status := 200 |} in
  let cache := snd (LocalCache.set (cacheKey req) e
                      {| LocalCache.map := []; LocalCache.file := Absent |}) in
  get (cacheKey req) cache = (Resolved (entry_object e), cache) /\
  trace (handler 1800 req 1689241799999 1689241800000 ErrorRequest cache) =
    [LogIn "GET" "/recipes?query=pasta"; CacheGet "GET /recipes?query=pasta";
     SendJson (VNum 200) (VObj [("id", VNum 1)])] /\
  exists entry reply,
    trace (handler 1800 req 1689241800000 1689241800001 ErrorRequest cache) =
    [LogIn "GET" "/recipes?query=pasta"; CacheGet "GET /recipes?query=pasta";
     CacheDelete "GET /recipes?query=pasta";
     LogOut "GET" "https://api.spoonacular.com/recipes?query=pasta";
     UpstreamRequest "GET" "/recipes?query=pasta";
     CacheSet "GET /recipes?query=pasta" entry; reply].
Proof.
  intros req e cache.
  assert (Hget : get (cacheKey req) cache = (Resolved (entry_object e), cache))
    by (vm_compute; reflexivity).
  split; [exact Hget|]. split.
  - pose proof (proj1 (proj1 (handler_serves_fresh_entries_only 1800 req 1689241799999
                  1689241800000 ErrorRequest cache e cache Hget)) eq_refl) as H.
    rewrite H. vm_compute. reflexivity.
  - destruct (proj2 (handler_serves_fresh_entries_only 1800 req 1689241800000
                  1689241800001 ErrorRequest cache e cache Hget)
                ltac:(vm_compute; discriminate)) as [_ (entry & reply & H)].
    exists entry, reply. exact H.
Defined.

Lemma handler_caches_upstream_failure_witness :
  let req := {| method := "GET"; url := "/recipes?query=pasta";
                query := [("query", "pasta")] |} in
  let cache := {| LocalCache.map := []; LocalCache.file := Absent |} in
  let entry := {| data := VNull; status := 500; timeStored := 1689240000000 |} in
  get (cacheKey req) cache = (Resolved VUndefined, cache) /\
  passes_cache 1800 1689239999999 VUndefined = true /\
  no_response ErrorRequest = true /\
  exists before dropped cache2,
    handler 1800 req 1689239999999 1689240000000 ErrorRequest cache =
    {| trace := before ++
                [LogOut "GET" (SPOONACULAR_API_BASE_URL ++ logged_url req);
                 UpstreamRequest "GET" "/recipes?query=pasta";
                 CacheSet (cacheKey req) entry; SendStatus (VNum 500)];
       settled := Resolved tt;
       floating := dropped ++ rejection (fst (set (cacheKey req) entry cache2));
       cache_after := snd (set (cacheKey req) entry cache2) |}.
Proof.
  intros req cache entry.
  split; [reflexivity|]. split; [reflexivity|]. split; [reflexivity|].
  exact (proj1 (handler_caches_upstream_failure 1800 req 1689239999999 1689240000000
                  ErrorRequest cache VUndefined cache eq_refl eq_refl eq_refl)).
Defined.

(** The next request for the same address, while the entry is fresh, is
    answered 500 from the File/Memory backend without a call upstream. *)
Example cached_failure_is_served :
  let req := {| method := "GET"; url := "/recipes?query=pasta";
                query := [("query", "pasta")] |} in
  let cache := {| LocalCache.map := []; LocalCache.file := Absent |} in
  let first := handler 1800 req 1689239999999 1689240000000 ErrorRequest cache in
  trace (handler 1800 req 1689241799999 1689241800000
           (Fulfilled (VObj [("id", VNum 1)]) 200) (cache_after first)) =
  [LogIn "GET" "/recipes?query=pasta"; CacheGet "GET /recipes?query=pasta";
   SendStatus (VNum 500)].
Proof. vm_compute. reflexivity. Qed.

(** * Saving: the fuel of [saveCache] suffices *)

Lemma replace_step fuel replacer key v :
  JSON.replace (S fuel) replacer key v =
  match replacer key v with
  | VArr items => option_map VArr (JSON.replace_items fuel replacer O items)
  | VObj props => option_map VObj (JSON.replace_props fuel replacer props)
  | v' => Some v'
  end.
Proof.
  cbn [JSON.replace]. destruct (replacer key v); try reflexivity.
  - f_equal. generalize O.
    induction items as [|x rest IH]; intros i; simpl; [reflexivity|].
    rewrite IH. reflexivity.
  - f_equal.
    induction props as [|[name x] rest IH]; simpl; [reflexivity|].
    rewrite IH. reflexivity.
Qed.

Lemma replace_items_json items :
  Forall replaced_unchanged items -> forallb JSON.is_json items = true ->
  forall fuel i, fold_right (fun x n => Nat.max (height x) n) O items < fuel ->
  JSON.replace_items fuel LocalCache.replacer i items = Some items.
Proof.
  induction 1 as [|x rest Hx _ IH]; intros Hj fuel i Hfuel; [reflexivity|].
  simpl in Hj, Hfuel. apply andb_true_iff in Hj as [Hjx Hjrest].
  simpl. rewrite (Hx Hjx) by lia. rewrite IH by (assumption || lia). reflexivity.
Qed.

Lemma replace_props_json props :
  Forall (fun p => replaced_unchanged (snd p)) props ->
  forallb (fun p => JSON.is_json (snd p)) props = true ->
  forall fuel, fold_right (fun p n => Nat.max (height (snd p)) n) O props < fuel ->
  JSON.replace_props fuel LocalCache.replacer props = Some props.
Proof.
  induction 1 as [|[name x] rest Hx _ IH]; intros Hj fuel Hfuel; [reflexivity|].
  simpl in Hj, Hfuel, Hx. apply andb_true_iff in Hj as [Hjx Hjrest].
  simpl. rewrite (Hx Hjx) by lia. rewrite IH by (assumption || lia). reflexivity.
Qed.

Lemma replace_json v : replaced_unchanged v.
Proof.
  induction v as [ | | b | n | s | items IH | props IH | entries IH ] using value_ind;
    intros Hj fuel key Hfuel; try discriminate Hj;
    (destruct fuel as [|fuel]; [lia|]); try reflexivity.
  - rewrite replace_step. simpl LocalCache.replacer. cbv iota.
    simpl in Hj, Hfuel. rewrite replace_items_json by (assumption || lia). reflexivity.
  - rewrite replace_step. simpl LocalCache.replacer. cbv iota.
    simpl in Hj, Hfuel. apply andb_true_iff in Hj as [Hj _].
    rewrite replace_props_json by (assumption || lia). reflexivity.
Qed.

Lemma entries_json m : json_entries m = true -> JSON.is_json (JsMap.entries m) = true.
Proof.
  unfold json_entries, JsMap.entries. simpl.
  induction m as [|[k v] rest IH]; simpl; [reflexivity|].
  intros H. apply andb_true_iff in H as [Hkv Hrest].
  apply andb_true_iff in Hkv as [Hk Hv]. rewrite Hk, Hv, IH by exact Hrest. reflexivity.
Qed.

Lemma entries_height m : height (JsMap.entries m) <= S (height (VMap m)).
Proof.
  unfold JsMap.entries. simpl. apply le_n_S.
  induction m as [|[k v] rest IH]; cbn -[Nat.max] in *; lia.
Qed.

Lemma saveCache_writes cache f :
  json_entries cache = true ->
  LocalCache.saveCache cache f = writeFileSync f (JSON.write (saved_document cache) "").
Proof.
  intros Hj. unfold LocalCache.saveCache, JSON.stringify_with.
  pose proof (entries_height cache) as Hh.
  remember (3 * height (VMap cache) + 1) as fuel eqn:Hfuel.
  assert (Hpos : 1 <= height (VMap cache)) by (simpl; lia).
  destruct fuel as [|fuel]; [lia|].
  rewrite replace_step.
  change (LocalCache.replacer "" (VMap cache)) with (saved_document cache).
  unfold saved_document. cbn [JSON.replace_props].
  rewrite (replace_json (VStr "Map") eq_refl) by (simpl; lia).
  rewrite (replace_json _ (entries_json cache Hj)) by lia.
  reflexivity.
Qed.

(** Saving and loading again gives the empty Map, whatever was saved. *)
Theorem saveCache_tryLoadFromJson cache f :
  json_entries cache = true -> (forall code, f <> Unreadable code) ->
  exists f', LocalCache.saveCache cache f = Ok f' /\ LocalCache.tryLoadFromJson f' = Ok [].
Proof.
  intros Hj Hf. rewrite saveCache_writes by exact Hj.
  exists (Contents (JSON.write (saved_document cache) "")). split.
  - destruct f; try reflexivity. destruct (Hf code). reflexivity.
  - apply tryLoadFromJson_parsed with (v := saved_document cache).
    apply parse_write. unfold saved_document. cbn -[JsMap.entries].
    rewrite (entries_json cache Hj). reflexivity.
Qed.

Lemma JsMap_set_json m k v :
  json_entries m = true -> JSON.is_json k = true -> JSON.is_json v = true ->
  json_entries (JsMap.set m k v) = true.
Proof.
  unfold json_entries. intros Hm Hk Hv.
  induction m as [|[k' v'] rest IH]; simpl in *.
  - rewrite Hk, Hv. reflexivity.
  - apply andb_true_iff in Hm as [Hkv Hrest]. apply andb_true_iff in Hkv as [Hk' Hv'].
    destruct (JsMap.same_value_zero k' k); simpl.
    + rewrite Hk', Hv, Hrest. reflexivity.
    + rewrite Hk', Hv', IH by exact Hrest. reflexivity.
Qed.

(** The Maps that [set] builds from JSON payloads are of the kind
    [saveCache] writes in full. *)
Lemma LocalCache_set_json key e c :
  json_entries (LocalCache.map c) = true -> JSON.is_json (data e) = true ->
  json_entries (LocalCache.map (snd (LocalCache.set key e c))) = true.
Proof.
  intros Hc He. simpl. apply JsMap_set_json; [exact Hc | reflexivity |].
  apply entry_object_json, He.
Qed.

(** * More on the File/Memory backend *)

Lemma same_value_zero_sym a b : JsMap.same_value_zero a b = JsMap.same_value_zero b a.
Proof.
  destruct a, b; simpl; try reflexivity.
  - destruct b, b0; reflexivity.
  - apply Z.eqb_sym.
  - apply String.eqb_sym.
Qed.

Lemma same_value_zero_eq a b : JsMap.same_value_zero a b = true -> a = b.
Proof.
  destruct a, b; simpl; intros H; try discriminate H; try reflexivity.
  - apply Bool.eqb_prop in H. congruence.
  - apply Z.eqb_eq in H. congruence.
  - apply String.eqb_eq in H. congruence.
Qed.

Lemma JsMap_get_set_other m k v k' :
  JsMap.same_value_zero k k' = false ->
  JsMap.get (JsMap.set m k v) k' = JsMap.get m k'.
Proof.
  intros Hk. induction m as [|[k0 v0] rest IH]; simpl.
  - rewrite Hk. reflexivity.
  - destruct (JsMap.same_value_zero k0 k) eqn:E; simpl.
    + apply same_value_zero_eq in E. subst k0. rewrite Hk. reflexivity.
    + rewrite IH. reflexivity.
Qed.

Lemma JsMap_has_set_other m k v k' :
  JsMap.same_value_zero k k' = false ->
  JsMap.has (JsMap.set m k v) k' = JsMap.has m k'.
Proof.
  intros Hk. induction m as [|[k0 v0] rest IH]; simpl.
  - rewrite Hk. reflexivity.
  - destruct (JsMap.same_value_zero k0 k) eqn:E; simpl.
    + reflexivity.
    + rewrite IH. reflexivity.
Qed.

Lemma JsMap_get_delete_other m k k' :
  JsMap.same_value_zero k k' = false ->
  JsMap.get (snd (JsMap.delete m k)) k' = JsMap.get m k'.
Proof.
  intros Hk. induction m as [|[k0 v0] rest IH]; simpl; [reflexivity|].
  destruct (JsMap.delete rest k) as [b rest'] eqn:D. simpl in IH.
  destruct (JsMap.same_value_zero k0 k) eqn:E; simpl.
  - apply same_value_zero_eq in E. subst k0. rewrite Hk. exact IH.
  - rewrite IH. reflexivity.
Qed.

Lemma JsMap_has_delete_other m k k' :
  JsMap.same_value_zero k k' = false ->
  JsMap.has (snd (JsMap.delete m k)) k' = JsMap.has m k'.
Proof.
  intros Hk. induction m as [|[k0 v0] rest IH]; simpl; [reflexivity|].
  destruct (JsMap.delete rest k) as [b rest'] eqn:D. simpl in IH.
  destruct (JsMap.same_value_zero k0 k) eqn:E; simpl.
  - apply same_value_zero_eq in E. subst k0. rewrite Hk. exact IH.
  - rewrite IH. reflexivity.
Qed.

Lemma same_value_zero_strings a b : a <> b -> JsMap.same_value_zero (VStr a) (VStr b) = false.
Proof. intros H. simpl. apply String.eqb_neq, H. Qed.

Lemma LocalCache_new_map f c : LocalCache.new f = Ok c -> LocalCache.map c = [].
Proof.
  unfold LocalCache.new. intros H.
  destruct (LocalCache.tryLoadFromJson f) as [m|] eqn:E; [|discriminate H].
  apply tryLoadFromJson_empty in E. subst m. simpl in H. inversion H. reflexivity.
Qed.

(** X1: a backend that [new LocalCache()] has built holds no entry,
    whatever the file held: [contains] answers false, [get] answers
    [undefined] and [delete] answers false for every key. *)
Theorem LocalCache_new_is_empty (f : File) (c : LocalCache.t) (key : string) :
  LocalCache.new f = Ok c ->
  LocalCache.map c = [] /\
  LocalCache.contains key c = (Resolved false, c) /\
  LocalCache.get key c = (Resolved VUndefined, c) /\
  LocalCache.delete key c = (Resolved false, c).
Proof.
  unfold LocalCache.new. intros H.
  destruct (LocalCache.tryLoadFromJson f) as [m|] eqn:E; [|discriminate H].
  apply tryLoadFromJson_empty in E. subst m. simpl in H. inversion H; subst c.
  repeat split.
Qed.

Lemma LocalCache_new_is_empty_witness :
  let f := Contents (json_text
    "{'dataType':'Map','value':[['GET /a',{'data':null,'status':500,'timeStored':5}]]}") in
  let c := {| LocalCache.map := []; LocalCache.file := f |} in
  LocalCache.new f = Ok c /\ LocalCache.contains "GET /a" c = (Resolved false, c).
Proof.
  intros f c.
  assert (H : LocalCache.new f = Ok c) by (vm_compute; reflexivity).
  split; [exact H|].
  exact (proj1 (proj2 (LocalCache_new_is_empty f c "GET /a" H))).
Defined.

(** X2: [set] and [delete] on one key leave what [get] and [contains]
    answer for every other key. *)
Theorem LocalCache_other_keys_untouched
    (key other : string) (e : CacheEntry) (c : LocalCache.t) :
  key <> other ->
  (let c' := snd (LocalCache.set key e c) in
   fst (LocalCache.get other c') = fst (LocalCache.get other c) /\
   fst (LocalCache.contains other c') = fst (LocalCache.contains other c)) /\
  (let c' := snd (LocalCache.delete key c) in
   fst (LocalCache.get other c') = fst (LocalCache.get other c) /\
   fst (LocalCache.contains other c') = fst (LocalCache.contains other c)).
Proof.
  intros Hne. pose proof (same_value_zero_strings key other Hne) as Hk.
  split; cbv zeta.
  - unfold LocalCache.set, LocalCache.get, LocalCache.contains. simpl.
    rewrite JsMap_get_set_other, JsMap_has_set_other by exact Hk. split; reflexivity.
  - unfold LocalCache.delete, LocalCache.get, LocalCache.contains.
    pose proof (JsMap_get_delete_other (LocalCache.map c) _ _ Hk) as Hg.
    pose proof (JsMap_has_delete_other (LocalCache.map c) _ _ Hk) as Hh.
    destruct (JsMap.delete (LocalCache.map c) (VStr key)) as [b m']. simpl in *.
    rewrite Hg, Hh. split; reflexivity.
Qed.

Lemma LocalCache_other_keys_untouched_witness :
  let e1 := {| data := VNum 1; timeStored := 10; status := 200 |} in
  let e2 := {| data := VNum 2; timeStored := 20; status := 404 |} in
  let c := snd (LocalCache.set "GET /a" e1 {| LocalCache.map := []; LocalCache.file := Absent |}) in
  "GET /b" <> "GET /a" /\
  fst (LocalCache.get "GET /a" (snd (LocalCache.set "GET /b" e2 c))) = Resolved (entry_object e1) /\
  fst (LocalCache.get "GET /a" (snd (LocalCache.delete "GET /b" c))) = Resolved (entry_object e1).
Proof.
  intros e1 e2 c.
  assert (Hne : "GET /b" <> "GET /a") by discriminate.
  split; [exact Hne|].
  destruct (LocalCache_other_keys_untouched "GET /b" "GET /a" e2 c Hne) as [[H1 _] [H2 _]].
  cbv zeta in H1, H2. split; [rewrite H1 | rewrite H2]; reflexivity.
Defined.

Lemma JsMap_set_absent m k v : JsMap.has m k = false -> JsMap.set m k v = (m ++ [(k, v)])%list.
Proof.
  induction m as [|[k0 v0] rest IH]; simpl; [reflexivity|].
  destruct (JsMap.same_value_zero k0 k); simpl; [discriminate|].
  intros H. rewrite IH by exact H. reflexivity.
Qed.





(** * Invariants of the Map *)

Lemma keys_distinct_set m k v :
  keys_distinct m = true -> keys_distinct (JsMap.set m k v) = true.
Proof.
  induction m as [|[k0 v0] rest IH]; simpl; [reflexivity|].
  intros H. apply andb_true_iff in H as [H0 Hrest].
  destruct (JsMap.same_value_zero k0 k) eqn:E; simpl.
  - rewrite H0, Hrest. reflexivity.
  - rewrite JsMap_has_set_other by (rewrite same_value_zero_sym; exact E).
    rewrite H0, IH by exact Hrest. reflexivity.
Qed.

Lemma keys_distinct_delete m k :
  keys_distinct m = true -> keys_distinct (snd (JsMap.delete m k)) = true.
Proof.
  induction m as [|[k0 v0] rest IH]; simpl; [reflexivity|].
  intros H. apply andb_true_iff in H as [H0 Hrest].
  pose proof (JsMap_has_delete_other rest k k0) as Hh.
  specialize (IH Hrest).
  destruct (JsMap.delete rest k) as [b rest'] eqn:D. simpl in *.
  destruct (JsMap.same_value_zero k0 k) eqn:E; simpl; [exact IH|].
  rewrite Hh by (rewrite same_value_zero_sym; exact E).
  rewrite H0, IH. reflexivity.
Qed.

Lemma keys_distinct_delete_one m k :
  keys_distinct m = true -> JsMap.has m k = true ->
  S (List.length (snd (JsMap.delete m k))) = List.length m.
Proof.
  induction m as [|[k0 v0] rest IH]; simpl; [discriminate|].
  intros H Hk. apply andb_true_iff in H as [H0 Hrest].
  destruct (JsMap.same_value_zero k0 k) eqn:E.
  - apply same_value_zero_eq in E. subst k0.
    apply negb_true_iff in H0. rewrite (JsMap_delete_absent _ _ H0). reflexivity.
  - simpl in Hk. specialize (IH Hrest Hk).
    destruct (JsMap.delete rest k) as [b rest']. simpl in *. rewrite IH. reflexivity.
Qed.

Lemma holds_entry_set m key e :
  Forall holds_entry m -> Forall holds_entry (JsMap.set m (VStr key) (entry_object e)).
Proof.
  induction 1 as [|[k0 v0] rest H0 Hrest IH]; simpl.
  - constructor; [exists key, e; reflexivity|constructor].
  - destruct (JsMap.same_value_zero k0 (VStr key)) eqn:E.
    + constructor; [|exact Hrest].
      apply same_value_zero_eq in E. subst k0. exists key, e. reflexivity.
    + constructor; assumption.
Qed.

Lemma holds_entry_delete m k :
  Forall holds_entry m -> Forall holds_entry (snd (JsMap.delete m k)).
Proof.
  induction 1 as [|[k0 v0] rest H0 Hrest IH]; simpl; [constructor|].
  destruct (JsMap.delete rest k) as [b rest']. simpl in *.
  destruct (JsMap.same_value_zero k0 k); simpl; [exact IH|constructor; assumption].
Qed.

Lemma LocalCache_persist_map c : LocalCache.map (snd (LocalCache.persist c)) = LocalCache.map c.
Proof.
  unfold LocalCache.persist. destruct (LocalCache.saveCache _ _); reflexivity.
Qed.

(** X4: in every backend that the constructor and the operations lead to,
    no key occurs twice in the Map, and the Map holds only string keys with
    the objects of cache entries; there [delete] of a key that has an entry
    takes exactly one entry away. *)
Theorem LocalCache_map_invariant (c : LocalCache.t) (key : string) :
  reachable c ->
  keys_distinct (LocalCache.map c) = true /\
  Forall holds_entry (LocalCache.map c) /\
  (JsMap.has (LocalCache.map c) (VStr key) = true ->
   S (List.length (LocalCache.map (snd (LocalCache.delete key c)))) =
   List.length (LocalCache.map c)).
Proof.
  intros Hr.
  assert (Hinv : keys_distinct (LocalCache.map c) = true /\ Forall holds_entry (LocalCache.map c)).
  { induction Hr as [f c Hnew | k e c Hr [IHd IHe] | k c Hr [IHd IHe] | c Hr IH].
    - rewrite (LocalCache_new_map f c Hnew). split; [reflexivity|constructor].
    - simpl. split; [apply keys_distinct_set, IHd | apply holds_entry_set, IHe].
    - unfold LocalCache.delete.
      pose proof (keys_distinct_delete (LocalCache.map c) (VStr k) IHd) as Hd.
      pose proof (holds_entry_delete (LocalCache.map c) (VStr k) IHe) as He.
      destruct (JsMap.delete (LocalCache.map c) (VStr k)). simpl in *. split; assumption.
    - rewrite LocalCache_persist_map. exact IH. }
  destruct Hinv as [Hd He]. split; [exact Hd|]. split; [exact He|].
  intros Hk. unfold LocalCache.delete.
  pose proof (keys_distinct_delete_one (LocalCache.map c) (VStr key) Hd Hk) as H.
  destruct (JsMap.delete (LocalCache.map c) (VStr key)). simpl in *. exact H.
Qed.

Lemma LocalCache_map_invariant_witness :
  let e1 := {| data := VNum 1; timeStored := 10; status := 200 |} in
  let e2 := {| data := VNum 2; timeStored := 20; status := 404 |} in
  let c0 := {| LocalCache.map := []; LocalCache.file := Contents "[]" |} in
  let c := snd (LocalCache.set "GET /a" e2 (snd (LocalCache.set "GET /b" e1
             (snd (LocalCache.set "GET /a" e1 c0))))) in
  reachable c /\ JsMap.has (LocalCache.map c) (VStr "GET /a") = true /\
  List.length (LocalCache.map c) = 2 /\
  List.length (LocalCache.map (snd (LocalCache.delete "GET /a" c))) = 1.
Proof.
  intros e1 e2 c0 c.
  assert (Hr : reachable c).
  { do 3 apply reach_set. apply (reach_new (Contents "[]")). vm_compute. reflexivity. }
  split; [exact Hr|]. split; [reflexivity|]. split; [reflexivity|].
  pose proof (proj2 (proj2 (LocalCache_map_invariant c "GET /a" Hr)) eq_refl) as H.
  apply eq_add_S. exact H.
Defined.

(** * Persisting *)

(** X5: [persist] of a Map of JSON entries to a file that can be written
    resolves and leaves the Map as it is; the file then holds one JSON
    document, the object tagged [dataType: "Map"] whose [value] lists the
    [key, entry] pairs in the order of the Map. *)
Theorem LocalCache_persist_writes_tagged_document (c : LocalCache.t) :
  json_entries (LocalCache.map c) = true ->
  (forall code, LocalCache.file c <> Unreadable code) ->
  exists text,
    LocalCache.persist c =
      (Resolved tt, {| LocalCache.map := LocalCache.map c; LocalCache.file := Contents text |}) /\
    JSON.parse text =
      Ok (VObj [("dataType", VStr "Map"); ("value", JsMap.entries (LocalCache.map c))]).
Proof.
  intros Hj Hf. exists (JSON.write (saved_document (LocalCache.map c)) ""). split.
  - unfold LocalCache.persist. rewrite saveCache_writes by exact Hj.
    destruct (LocalCache.file c) eqn:E; try reflexivity. destruct (Hf code). reflexivity.
  - apply parse_write. unfold saved_document. cbn -[JsMap.entries].
    rewrite (entries_json _ Hj). reflexivity.
Qed.

Lemma LocalCache_persist_writes_tagged_document_witness :
  let e := {| data := VStr "a b"; timeStored := 10; status := 200 |} in
  let c := snd (LocalCache.set "GET /a b" e {| LocalCache.map := []; LocalCache.file := Absent |}) in
  json_entries (LocalCache.map c) = true /\
  (forall code, LocalCache.file c <> Unreadable code) /\
  exists text,
    LocalCache.file (snd (LocalCache.persist c)) = Contents text /\
    JSON.parse text =
      Ok (VObj [("dataType", VStr "Map");
                ("value", VArr [VArr [VStr "GET /a b"; entry_object e]])]).
Proof.
  intros e c.
  assert (Hj : json_entries (LocalCache.map c) = true) by reflexivity.
  assert (Hf : forall code, LocalCache.file c <> Unreadable code) by (intros code; discriminate).
  split; [exact Hj|]. split; [exact Hf|].
  destruct (LocalCache_persist_writes_tagged_document c Hj Hf) as (text & Hp & Hparse).
  exists text. rewrite Hp. split; [reflexivity | exact Hparse].
Defined.

(** * The loader that keeps the Map itself *)

Lemma internalize_items_untagged items :
  Forall (fun x => JSON.is_json x = true -> untagged x = true -> forall name,
            JSON.internalize (fun v => v) cacheJson_reviver name x = Ok x) items ->
  forallb JSON.is_json items = true -> forallb untagged items = true ->
  forall i, JSON.internalize_items (fun v => v) cacheJson_reviver i items = Ok items.
Proof.
  induction 1 as [|x rest Hx _ IH]; intros Hj Hu i; [reflexivity|].
  simpl in Hj, Hu. apply andb_true_iff in Hj as [Hjx Hjrest].
  apply andb_true_iff in Hu as [Hux Hurest].
  simpl. rewrite (Hx Hjx Hux). simpl. rewrite (IH Hjrest Hurest). reflexivity.
Qed.

Lemma internalize_props_untagged props :
  Forall (fun p => JSON.is_json (snd p) = true -> untagged (snd p) = true -> forall name,
            JSON.internalize (fun v => v) cacheJson_reviver name (snd p) = Ok (snd p)) props ->
  forallb (fun p => JSON.is_json (snd p)) props = true ->
  forallb (fun p => untagged (snd p)) props = true ->
  JSON.internalize_props (fun v => v) cacheJson_reviver props = Ok props.
Proof.
  induction 1 as [|[key x] rest Hx _ IH]; intros Hj Hu; [reflexivity|].
  simpl in Hj, Hu, Hx. apply andb_true_iff in Hj as [Hjx Hjrest].
  apply andb_true_iff in Hu as [Hux Hurest].
  simpl. rewrite (Hx Hjx Hux). simpl. rewrite (IH Hjrest Hurest). simpl.
  destruct x; try reflexivity. discriminate Hjx.
Qed.

Lemma array_has_no_dataType items : prop (VArr items) "dataType" = VUndefined.
Proof. unfold prop. replace (index_of_string "dataType") with (@None nat) by (vm_compute; reflexivity). reflexivity. Qed.

(** The reviver of that loader hands back a JSON value without tagged
    object as it is. *)
Lemma internalize_untagged v :
  JSON.is_json v = true -> untagged v = true -> forall name,
  JSON.internalize (fun v => v) cacheJson_reviver name v = Ok v.
Proof.
  induction v as [ | | b | n | s | items IH | props IH | entries IH ] using value_ind;
    intros Hj Hu name; try discriminate Hj; try reflexivity.
  - rewrite internalize_VArr. simpl in Hj, Hu.
    rewrite (internalize_items_untagged items IH Hj Hu). simpl.
    unfold cacheJson_reviver. simpl is_object. cbv iota.
    rewrite array_has_no_dataType. reflexivity.
  - rewrite internalize_VObj. simpl in Hj, Hu.
    apply andb_true_iff in Hj as [Hj _]. apply andb_true_iff in Hu as [Htag Hu].
    rewrite (internalize_props_untagged props IH Hj Hu). simpl.
    unfold cacheJson_reviver. simpl is_object. cbv iota.
    simpl prop. apply negb_true_iff in Htag. rewrite Htag. reflexivity.
Qed.

Lemma entries_untagged m : untagged_entries m = true -> untagged (JsMap.entries m) = true.
Proof.
  unfold untagged_entries, JsMap.entries. simpl.
  induction m as [|[k v] rest IH]; simpl; [reflexivity|].
  intros H. apply andb_true_iff in H as [Hkv Hrest].
  apply andb_true_iff in Hkv as [Hk Hv]. rewrite Hk, Hv, IH by exact Hrest. reflexivity.
Qed.

Lemma has_app m1 m2 k : JsMap.has (m1 ++ m2)%list k = JsMap.has m1 k || JsMap.has m2 k.
Proof.
  induction m1 as [|[k0 v0] rest IH]; simpl; [reflexivity|].
  rewrite IH, orb_assoc. reflexivity.
Qed.

Lemma keys_distinct_app_fresh acc k v rest :
  keys_distinct (acc ++ (k, v) :: rest)%list = true -> JsMap.has acc k = false.
Proof.
  induction acc as [|[k0 v0] acc IH]; simpl; [reflexivity|].
  intros H. apply andb_true_iff in H as [H0 Hrest].
  rewrite has_app in H0. simpl in H0.
  apply negb_true_iff in H0. apply orb_false_iff in H0 as [_ H0].
  apply orb_false_iff in H0 as [H0 _].
  rewrite same_value_zero_sym, H0. simpl. auto.
Qed.

Lemma of_entries m : forall acc,
  keys_distinct (acc ++ m)%list = true ->
  fold_left
    (fun acc item =>
       bind_result acc (fun m0 =>
         if is_object item
         then Ok (JsMap.set m0 (prop item "0") (prop item "1"))
         else Throw TypeError))
    (List.map (fun e => VArr [fst e; snd e]) m) (Ok acc)
  = Ok (acc ++ m)%list.
Proof.
  induction m as [|[k v] rest IH]; intros acc H; simpl.
  - rewrite List.app_nil_r. reflexivity.
  - change (prop (VArr [k; v]) "0") with (match index_of_string "0" with
                                          | Some i => nth i [k; v] VUndefined
                                          | None => VUndefined end).
    change (prop (VArr [k; v]) "1") with (match index_of_string "1" with
                                          | Some i => nth i [k; v] VUndefined
                                          | None => VUndefined end).
    replace (index_of_string "0") with (Some 0) by (vm_compute; reflexivity).
    replace (index_of_string "1") with (Some 1) by (vm_compute; reflexivity).
    simpl nth.
    rewrite JsMap_set_absent by (eapply keys_distinct_app_fresh; exact H).
    rewrite IH; rewrite <- List.app_assoc; [reflexivity | exact H].
Qed.

(** X6: the entry point that keeps the Map itself restores at its start
    the Map it wrote at exit: for a Map of JSON entries with distinct keys,
    none of which contains an object tagged [dataType: "Map"], the loader
    reads from the written file the same entries in the same order. *)
Theorem cache_of_cacheJson_restores_written_cache (m : JsMap.t) (f : File) :
  json_entries m = true -> untagged_entries m = true -> keys_distinct m = true ->
  (forall code, f <> Unreadable code) ->
  exists f', write_cache_on_exit m f = Ok f' /\ cache_of_cacheJson f' = Ok m.
Proof.
  intros Hj Hu Hd Hf. unfold write_cache_on_exit.
  rewrite saveCache_writes by exact Hj.
  exists (Contents (JSON.write (saved_document m) "")). split.
  - destruct f; try reflexivity. destruct (Hf code). reflexivity.
  - assert (Hparse : JSON.parse (JSON.write (saved_document m) "") = Ok (saved_document m)).
    { apply parse_write. unfold saved_document. cbn -[JsMap.entries].
      rewrite (entries_json m Hj). reflexivity. }
    unfold cache_of_cacheJson, cacheJson, JSON.parse_with.
    cbn [readFileSync bind_result]. rewrite Hparse. cbn [bind_result].
    unfold saved_document. rewrite internalize_VObj.
    cbn [JSON.internalize_props].
    change (JSON.internalize (fun v => v) cacheJson_reviver "dataType" (VStr "Map"))
      with (@Ok value (VStr "Map")).
    cbn [bind_result].
    rewrite (internalize_untagged _ (entries_json m Hj) (entries_untagged m Hu)).
    unfold JsMap.entries. cbv beta iota. cbn [bind_result].
    unfold cacheJson_reviver. cbn [is_object prop obj_lookup fst snd].
    replace (String.eqb "dataType" "dataType") with true by reflexivity.
    replace (String.eqb "dataType" "value") with false by reflexivity.
    replace (String.eqb "value" "value") with true by reflexivity.
    cbn [strict_eq_string].
    replace (String.eqb "Map" "Map") with true by reflexivity.
    unfold JsMap.of_iterable.
    rewrite (of_entries m [] Hd). reflexivity.
Qed.

Lemma cache_of_cacheJson_restores_written_cache_witness :
  let e := {| data := VObj [("id", VNum 1)]; timeStored := 1689240000000; status := 200 |} in
  let m := [(VStr "GET /recipes?query=pasta", entry_object e)] in
  json_entries m = true /\ untagged_entries m = true /\ keys_distinct m = true /\
  (forall code, Absent <> Unreadable code) /\
  exists f', write_cache_on_exit m Absent = Ok f' /\ cache_of_cacheJson f' = Ok m.
Proof.
  intros e m.
  assert (Hf : forall code, Absent <> Unreadable code) by (intros code; discriminate).
  split; [reflexivity|]. split; [reflexivity|]. split; [reflexivity|]. split; [exact Hf|].
  exact (cache_of_cacheJson_restores_written_cache m Absent eq_refl eq_refl eq_refl Hf).
Defined.

(** * More on the request handler *)

Lemma params_delete_absent ps name :
  params_has ps name = false -> params_delete ps name = ps.
Proof.
  unfold params_has, params_delete.
  induction ps as [|p rest IH]; simpl; [reflexivity|].
  intros H. apply orb_false_iff in H as [Hp Hrest].
  rewrite Hp. simpl. rewrite IH by exact Hrest. reflexivity.
Qed.

Lemma sanitizeParams_step ps d rest :
  sanitizeParams ps (d :: rest) = sanitizeParams (params_delete ps d) rest.
Proof.
  unfold sanitizeParams. simpl.
  destruct (params_has ps d) eqn:E; [reflexivity|].
  rewrite params_delete_absent by exact E. reflexivity.
Qed.

Lemma filter_filter {A} (f g : A -> bool) l :
  filter g (filter f l) = filter (fun x => f x && g x) l.
Proof.
  induction l as [|x rest IH]; simpl; [reflexivity|].
  destruct (f x); simpl; [destruct (g x)|]; rewrite IH; reflexivity.
Qed.

(** X7: [sanitizeParams] keeps exactly the parameters whose name is not in
    [toDelete], every occurrence of a listed name goes, and the parameters
    kept stay in their order. *)
Theorem sanitizeParams_is_filter (toDelete : list string) : forall params : URLSearchParams,
  sanitizeParams params toDelete =
  filter (fun p => negb (existsb (String.eqb (fst p)) toDelete)) params.
Proof.
  induction toDelete as [|d rest IH]; intros params.
  - unfold sanitizeParams. simpl. induction params as [|p ps IHp]; simpl; congruence.
  - rewrite sanitizeParams_step, IH. unfold params_delete. rewrite filter_filter.
    apply filter_ext. intros p. simpl. rewrite negb_orb. reflexivity.
Qed.

Lemma sanitize_apiKey ps : sanitizeParams ps ["apiKey"] = params_delete ps "apiKey".
Proof. rewrite sanitizeParams_step. reflexivity. Qed.

(** X8: the address that is logged does not tell the [apiKey]: two
    requests with a query, the same path and the same parameters but for
    those named [apiKey] are logged with the same address.  A request
    without query is logged with its path; one whose parameters are all
    named [apiKey] is logged with its path and a bare question mark. *)
Theorem logged_url_hides_apiKey (r1 r2 : Request) :
  (query r1 = [] -> logged_url r1 = before_question (url r1)) /\
  (query r1 <> [] -> query r2 <> [] ->
   before_question (url r1) = before_question (url r2) ->
   params_delete (query r1) "apiKey" = params_delete (query r2) "apiKey" ->
   logged_url r1 = logged_url r2) /\
  (query r1 <> [] -> params_delete (query r1) "apiKey" = [] ->
   logged_url r1 = before_question (url r1) ++ "?").
Proof.
  unfold logged_url, parseParams. split; [|split].
  - intros ->. reflexivity.
  - intros H1 H2 Hp Hq.
    destruct (query r1) as [|p1 q1] eqn:E1; [congruence|].
    destruct (query r2) as [|p2 q2] eqn:E2; [congruence|].
    rewrite !sanitize_apiKey, Hp, Hq. reflexivity.
  - intros H1 Hq. destruct (query r1) as [|p1 q1] eqn:E1; [congruence|].
    rewrite sanitize_apiKey, Hq. reflexivity.
Qed.

Lemma logged_url_hides_apiKey_witness :
  let r1 := {| method := "GET"; url := "/recipes?query=pasta&apiKey=ALICE";
               query := [("query", "pasta"); ("apiKey", "ALICE")] |} in
  let r2 := {| method := "GET"; url := "/recipes?apiKey=BOB&query=pasta";
               query := [("apiKey", "BOB"); ("query", "pasta")] |} in
  let r3 := {| method := "GET"; url := "/recipes?apiKey=CAROL";
               query := [("apiKey", "CAROL")] |} in
  query r1 <> [] /\ query r2 <> [] /\
  before_question (url r1) = before_question (url r2) /\
  params_delete (query r1) "apiKey" = params_delete (query r2) "apiKey" /\
  logged_url r1 = logged_url r2 /\
  query r3 <> [] /\ params_delete (query r3) "apiKey" = [] /\
  logged_url r3 = "/recipes?".
Proof.
  intros r1 r2 r3.
  assert (H1 : query r1 <> []) by discriminate.
  assert (H2 : query r2 <> []) by discriminate.
  assert (H3 : query r3 <> []) by discriminate.
  assert (Hp : before_question (url r1) = before_question (url r2)) by (vm_compute; reflexivity).
  assert (Hq : params_delete (query r1) "apiKey" = params_delete (query r2) "apiKey")
    by (vm_compute; reflexivity).
  assert (Hq3 : params_delete (query r3) "apiKey" = []) by (vm_compute; reflexivity).
  split; [exact H1|]. split; [exact H2|]. split; [exact Hp|]. split; [exact Hq|].
  split; [exact (proj1 (proj2 (logged_url_hides_apiKey r1 r2)) H1 H2 Hp Hq)|].
  split; [exact H3|]. split; [exact Hq3|].
  rewrite (proj2 (proj2 (logged_url_hides_apiKey r3 r3)) H3 Hq3). vm_compute. reflexivity.
Defined.

Section MoreHandlerFacts.
Context {C : Type} {api : ApiCache C}.
Variables (ttl : Z) (req : Request) (now later : Z).

Let start : list Event := [LogIn (method req) (logged_url req); CacheGet (cacheKey req)].

(** What [forward] does for each upstream outcome. *)
Lemma forward_outcome upstream before dropped cache :
  forward req later upstream before dropped cache =
  {| trace := before ++
              [LogOut (method req) (SPOONACULAR_API_BASE_URL ++ logged_url req);
               UpstreamRequest (method req) (url req);
               CacheSet (cacheKey req) (outcome_entry later upstream);
               outcome_reply upstream];
     settled := Resolved tt;
     floating := dropped ++
                 rejection (fst (set (cacheKey req) (outcome_entry later upstream) cache));
     cache_after := snd (set (cacheKey req) (outcome_entry later upstream) cache) |}.
Proof.
  destruct upstream; unfold forward; cbn [outcome_entry outcome_reply];
    destruct (set (cacheKey req) _ cache); reflexivity.
Qed.

Lemma is_reply_cached item : is_reply (cached_reply item) = true.
Proof. unfold cached_reply. destruct (prop item "data"); reflexivity. Qed.

Lemma is_reply_outcome upstream : is_reply (outcome_reply upstream) = true.
Proof. destruct upstream; reflexivity. Qed.

(** The three shapes of a run whose [get] resolved. *)
Lemma handler_resolved_shapes upstream cache item cache1 :
  get (cacheKey req) cache = (Resolved item, cache1) ->
  let run := handler ttl req now later upstream cache in
  run = {| trace := (start ++ [cached_reply item])%list; settled := Resolved tt;
           floating := []; cache_after := cache1 |} \/
  run = forward req later upstream start [] cache1 \/
  run = forward req later upstream (start ++ [CacheDelete (cacheKey req)])%list
          (rejection (fst (delete (cacheKey req) cache1)))
          (snd (delete (cacheKey req) cache1)).
Proof.
  intros Hget. cbv zeta. unfold handler. rewrite Hget. fold start.
  destruct item; auto;
    (destruct (fresh ttl now _); [left; reflexivity|]);
    right; right; destruct (delete (cacheKey req) cache1); reflexivity.
Qed.

(** X10: a run of the handler whose [get] resolved ends with its one
    reply, and what it asks of the upstream API, if anything, is the
    method and the address as received; a run whose [get] rejected
    rejects with the same error, without reply and without upstream
    call. *)
Theorem handler_replies_once upstream cache :
  let run := handler ttl req now later upstream cache in
  match fst (get (cacheKey req) cache) with
  | Rejected err =>
      settled run = Rejected err /\
      existsb is_reply (trace run) = false /\
      existsb is_upstream (trace run) = false
  | Resolved _ =>
      settled run = Resolved tt /\
      (exists before reply,
         trace run = (before ++ [reply])%list /\ is_reply reply = true /\
         existsb is_reply before = false) /\
      (forall m u, In (UpstreamRequest m u) (trace run) -> m = method req /\ u = url req)
  end.
Proof.
  cbv zeta. destruct (get (cacheKey req) cache) as [[item|err] cache1] eqn:Hget; cbn [fst].
  - destruct (handler_resolved_shapes upstream cache item cache1 Hget) as [H | [H | H]];
      cbv zeta in H; rewrite H; try rewrite forward_outcome; cbn [settled trace].
    + split; [reflexivity|]. split.
      * exists start, (cached_reply item). repeat split. apply is_reply_cached.
      * intros m u Hin. apply in_app_or in Hin as [Hin | Hin].
        -- simpl in Hin. destruct Hin as [Hin | [Hin | []]]; discriminate Hin.
        -- simpl in Hin. destruct Hin as [Hin | []].
           unfold cached_reply in Hin. destruct (prop item "data"); discriminate Hin.
    + split; [reflexivity|]. split.
      * exists (start ++ [LogOut (method req) (SPOONACULAR_API_BASE_URL ++ logged_url req);
                          UpstreamRequest (method req) (url req);
                          CacheSet (cacheKey req) (outcome_entry later upstream)])%list,
               (outcome_reply upstream).
        split; [rewrite <- List.app_assoc; reflexivity|].
        split; [apply is_reply_outcome | reflexivity].
      * intros m u Hin. simpl in Hin.
        destruct Hin as [Hin | [Hin | [Hin | [Hin | [Hin | [Hin | []]]]]]];
          try discriminate Hin.
        -- inversion Hin. auto.
        -- destruct upstream; discriminate Hin.
    + split; [reflexivity|]. split.
      * exists ((start ++ [CacheDelete (cacheKey req)]) ++
               [LogOut (method req) (SPOONACULAR_API_BASE_URL ++ logged_url req);
                UpstreamRequest (method req) (url req);
                CacheSet (cacheKey req) (outcome_entry later upstream)])%list,
               (outcome_reply upstream).
        split; [rewrite <- !List.app_assoc; reflexivity|].
        split; [apply is_reply_outcome | reflexivity].
      * intros m u Hin. simpl in Hin.
        destruct Hin as [Hin | [Hin | [Hin | [Hin | [Hin | [Hin | [Hin | []]]]]]]];
          try discriminate Hin.
        -- inversion Hin. auto.
        -- destruct upstream; discriminate Hin.
  - unfold handler. rewrite Hget. repeat split.
Qed.
End MoreHandlerFacts.

(** X9: with the File/Memory backend, the answer that a request stores
    is what the next request with the same method and address gets from
    the cache, without a call upstream, while
    [now - timeStored < CACHE_TTL_SECONDS * 1000]: the same status, and the
    same body unless the body is [null], in which case the cached answer is
    the status alone. *)
Theorem handler_replays_stored_answer
    (ttl : Z) (req req2 : Request) (now later now2 later2 : Z)
    (upstream upstream2 : AxiosOutcome) (c : LocalCache.t) :
  passes_cache ttl now (JsMap.get (LocalCache.map c) (VStr (cacheKey req))) = true ->
  cacheKey req2 = cacheKey req ->
  (now2 - later < ttl * 1000)%Z ->
  let run := handler ttl req now later upstream c in
  let entry := outcome_entry later upstream in
  (exists before,
     trace run = (before ++ [CacheSet (cacheKey req) entry; outcome_reply upstream])%list) /\
  handler ttl req2 now2 later2 upstream2 (cache_after run) =
    {| trace := [LogIn (method req2) (logged_url req2); CacheGet (cacheKey req2);
                 cached_reply (entry_object entry)];
       settled := Resolved tt; floating := []; cache_after := cache_after run |} /\
  (data entry <> VNull -> cached_reply (entry_object entry) = SendJson (VNum (status entry)) (data entry)) /\
  (data entry = VNull -> cached_reply (entry_object entry) = SendStatus (VNum (status entry))).
Proof.
  intros Hpass Hkey Hfresh. cbv zeta.
  assert (Hrun : exists before dropped c',
            handler ttl req now later upstream c =
            forward req later upstream before dropped c').
  { unfold handler. cbn [get LocalCache_ApiCache]. unfold LocalCache.get at 1.
    destruct (JsMap.get (LocalCache.map c) (VStr (cacheKey req))) eqn:E;
      unfold passes_cache in Hpass;
      try (apply negb_true_iff in Hpass; rewrite Hpass;
           destruct (delete (cacheKey req) c) as [p c2]);
      eexists _, _, _; reflexivity. }
  destruct Hrun as (before & dropped & c' & Hrun). rewrite Hrun, forward_outcome.
  cbn [trace cache_after].
  split; [|split; [|split]].
  - eexists (before ++ [_; _])%list. rewrite <- List.app_assoc. reflexivity.
  - unfold handler. rewrite Hkey. cbn [get set LocalCache_ApiCache].
    unfold LocalCache.get, LocalCache.set. cbn [LocalCache.map snd].
    rewrite JsMap_get_set by apply same_value_zero_string.
    change (entry_object (outcome_entry later upstream))
      with (VObj [("data", data (outcome_entry later upstream));
                  ("status", VNum (status (outcome_entry later upstream)));
                  ("timeStored", VNum (timeStored (outcome_entry later upstream)))]) at 1.
    cbv iota. fold (entry_object (outcome_entry later upstream)).
    rewrite fresh_entry.
    replace (timeStored (outcome_entry later upstream)) with later
      by (destruct upstream; reflexivity).
    apply Z.ltb_lt in Hfresh. rewrite Hfresh. reflexivity.
  - intros Hd. rewrite cached_reply_entry.
    destruct (data (outcome_entry later upstream)); try reflexivity. congruence.
  - intros Hd. rewrite cached_reply_entry, Hd. reflexivity.
Qed.

Lemma handler_replays_stored_answer_witness :
  let req := {| method := "GET"; url := "/recipes?query=pasta";
                query := [("query", "pasta")] |} in
  let c := {| LocalCache.map := []; LocalCache.file := Absent |} in
  let up := Fulfilled VNull 204 in
  let run := handler 1800 req 1000 2000 up c in
  passes_cache 1800 1000 (JsMap.get (LocalCache.map c) (VStr (cacheKey req))) = true /\
  (1801999 - 2000 < 1800 * 1000)%Z /\
  trace (handler 1800 req 1801999 1802000 ErrorRequest (cache_after run)) =
    [LogIn "GET" "/recipes?query=pasta"; CacheGet "GET /recipes?query=pasta";
     SendStatus (VNum 204)].
Proof.
  intros req c up run.
  split; [reflexivity|]. split; [reflexivity|].
  destruct (handler_replays_stored_answer 1800 req req 1000 2000 1801999 1802000
              up ErrorRequest c eq_refl eq_refl eq_refl) as (_ & H & _ & Hnull).
  cbv zeta in H, Hnull. fold run in H. rewrite H. cbn [trace].
  rewrite (Hnull eq_refl). vm_compute. reflexivity.
Defined.

(** X11: with the networked backend, a request that arrives while the
    command GET fails gets no answer: the handler rejects with the error of
    the command, and neither calls the upstream API nor replies. *)
Theorem handler_gives_up_when_GET_fails
    (ttl : Z) (req : Request) (now later : Z) (upstream : AxiosOutcome)
    (r : RedisCache.t) (err : exn) (rest : list (option exn)) :
  Redis.net r = Some err :: rest ->
  @handler RedisCache.t (RedisCache_ApiCache ttl) ttl req now later upstream r =
  {| trace := [LogIn (method req) (logged_url req); CacheGet (cacheKey req)];
     settled := Rejected err; floating := []; cache_after := Redis.with_net r rest |}.
Proof.
  intros Hnet. unfold handler. cbn [get RedisCache_ApiCache].
  destruct (RedisCache_failure_propagates (cacheKey req) r err rest Hnet) as (_ & _ & ->).
  reflexivity.
Qed.

Lemma handler_gives_up_when_GET_fails_witness :
  let req := {| method := "GET"; url := "/recipes"; query := [] |} in
  let r := {| Redis.db := []; Redis.now := 0%Z;
              Redis.net := [Some (ClientError "ECONNRESET")]; Redis.unhandled := [] |} in
  Redis.net r = [Some (ClientError "ECONNRESET")] /\
  settled (@handler RedisCache.t (RedisCache_ApiCache 1800) 1800 req 10 20
             (Fulfilled VNull 200) r) = Rejected (ClientError "ECONNRESET").
Proof.
  intros req r. split; [reflexivity|].
  rewrite (handler_gives_up_when_GET_fails 1800 req 10 20 (Fulfilled VNull 200) r
             (ClientError "ECONNRESET") [] eq_refl).
  reflexivity.
Defined.

(** * More on the networked backend *)

Lemma RedisCache_contains_calm key r :
  Redis.net r = [] ->
  RedisCache.contains key r =
  (Resolved (match Redis.live r key with Some _ => true | None => false end), r).
Proof.
  intros Hnet. unfold RedisCache.contains, Redis.EXISTS.
  rewrite Redis_command_calm by exact Hnet. unfold Redis.count.
  destruct (Redis.live r key); reflexivity.
Qed.

Lemma Redis_live_expired r key text expires ms :
  (expires <= Redis.now r + ms)%Z ->
  Redis.live (Redis.elapse ms (Redis.with_db r ((key, (text, expires)) :: Redis.remove (Redis.db r) key))) key
  = None.
Proof.
  intros H. unfold Redis.live. simpl. rewrite String.eqb_refl.
  apply Z.ltb_ge in H. rewrite H. reflexivity.
Qed.

(** X12: an entry written by [set] is handed out until
    [CACHE_TTL_SECONDS] seconds have passed on the clock of the store and
    not after: from then on [get] resolves with [undefined] and [contains]
    with false, with no call of [delete]. *)
Theorem RedisCache_entry_expires_after_ttl
    (ttl : Z) (key : string) (e : CacheEntry) (r : RedisCache.t) (ms : Z) :
  (0 < ttl)%Z -> Redis.net r = [] -> (0 <= ms)%Z ->
  let r' := Redis.elapse ms (snd (RedisCache.set ttl key e r)) in
  ((ms < ttl * 1000)%Z -> RedisCache.contains key r' = (Resolved true, r')) /\
  ((ttl * 1000 <= ms)%Z ->
   RedisCache.get key r' = (Resolved VUndefined, r') /\
   RedisCache.contains key r' = (Resolved false, r')).
Proof.
  intros Httl Hnet Hms. rewrite RedisCache_set_calm by assumption. cbn [snd]. cbv zeta.
  split.
  - intros Hlt. rewrite RedisCache_contains_calm by exact Hnet.
    rewrite Redis_live_written by lia. reflexivity.
  - intros Hge. rewrite RedisCache_contains_calm by exact Hnet.
    rewrite RedisCache_get_absent; [|exact Hnet|apply Redis_live_expired; lia].
    rewrite Redis_live_expired by lia. split; reflexivity.
Qed.

Lemma RedisCache_entry_expires_after_ttl_witness :
  let e := {| data := VObj [("id", VNum 1)]; timeStored := 1689240000000; status := 200 |} in
  let r := {| Redis.db := []; Redis.now := 1689240000000; Redis.net := [];
              Redis.unhandled := [] |} in
  let r' := Redis.elapse 1500 (snd (RedisCache.set 1 "GET /a" e r)) in
  (0 < 1)%Z /\ Redis.net r = [] /\ (0 <= 1500)%Z /\ (1 * 1000 <= 1500)%Z /\
  RedisCache.get "GET /a" r' = (Resolved VUndefined, r').
Proof.
  intros e r r'.
  split; [reflexivity|]. split; [reflexivity|]. split; [discriminate|]. split; [discriminate|].
  exact (proj1 (proj2 (RedisCache_entry_expires_after_ttl 1 "GET /a" e r 1500
                         eq_refl eq_refl ltac:(discriminate)) ltac:(discriminate))).
Defined.

(** X13: while the connection does not fail, [contains] tells whether the
    store holds a live value for the key and leaves the store as it is;
    [delete] answers what [contains] answered, and after it [contains]
    answers false. *)
Theorem RedisCache_contains_and_delete_agree (key : string) (r : RedisCache.t) :
  Redis.net r = [] ->
  exists b,
    RedisCache.contains key r = (Resolved b, r) /\
    (b = true <-> Redis.live r key <> None) /\
    fst (RedisCache.delete key r) = Resolved b /\
    RedisCache.contains key (snd (RedisCache.delete key r)) =
      (Resolved false, snd (RedisCache.delete key r)).
Proof.
  intros Hnet.
  exists (match Redis.live r key with Some _ => true | None => false end).
  rewrite RedisCache_contains_calm, RedisCache_delete_calm by exact Hnet. cbn [fst snd].
  split; [reflexivity|]. split; [|split; [reflexivity|]].
  - destruct (Redis.live r key); split; congruence.
  - rewrite RedisCache_contains_calm by exact Hnet.
    rewrite Redis_live_removed. reflexivity.
Qed.

Lemma RedisCache_contains_and_delete_agree_witness :
  let r := {| Redis.db := [("GET /a", ("5", 10%Z))]; Redis.now := 0%Z; Redis.net := [];
              Redis.unhandled := [] |} in
  Redis.net r = [] /\
  exists b, RedisCache.contains "GET /a" r = (Resolved b, r) /\
            fst (RedisCache.delete "GET /a" r) = Resolved b.
Proof.
  intros r. split; [reflexivity|].
  destruct (RedisCache_contains_and_delete_agree "GET /a" r eq_refl) as (b & H1 & _ & H2 & _).
  exists b. split; assumption.
Defined.



(** X15: [persist] resolves whatever becomes of SAVE and leaves the
    stored values as they are; when SAVE fails, the error is left to
    nobody. *)
Theorem RedisCache_persist_resolves (r : RedisCache.t) :
  fst (RedisCache.persist r) = Resolved tt /\
  Redis.db (snd (RedisCache.persist r)) = Redis.db r /\
  (forall err rest, Redis.net r = Some err :: rest ->
     Redis.unhandled (snd (RedisCache.persist r)) = (Redis.unhandled r ++ [err])%list).
Proof.
  unfold RedisCache.persist, Redis.SAVE, Redis.command.
  destruct (Redis.net r) as [|[err|] rest] eqn:E; cbn; repeat split;
    intros err' rest' H; inversion H; subst; reflexivity.
Qed.

Lemma RedisCache_persist_resolves_witness :
  let r := {| Redis.db := [("GET /a", ("5", 10%Z))]; Redis.now := 0%Z;
              Redis.net := [Some (ClientError "ECONNRESET")]; Redis.unhandled := [] |} in
  Redis.net r = [Some (ClientError "ECONNRESET")] /\
  fst (RedisCache.persist r) = Resolved tt /\
  Redis.unhandled (snd (RedisCache.persist r)) = [ClientError "ECONNRESET"].
Proof.
  intros r. split; [reflexivity|].
  destruct (RedisCache_persist_resolves r) as (H1 & _ & H3).
  split; [exact H1|]. exact (H3 (ClientError "ECONNRESET") [] eq_refl).
Defined.

Lemma Redis_lookup_remove_other d key other :
  key <> other -> Redis.lookup (Redis.remove d key) other = Redis.lookup d other.
Proof.
  intros Hne. induction d as [|[k x] rest IH]; simpl; [reflexivity|].
  destruct (String.eqb k key) eqn:E; simpl.
  - apply String.eqb_eq in E. subst k.
    apply String.eqb_neq in Hne. rewrite Hne. exact IH.
  - rewrite IH. reflexivity.
Qed.

(** X16: while the connection does not fail, [set] and [delete] on one
    key leave what [get] and [contains] answer for every other key. *)
Theorem RedisCache_other_keys_untouched
    (ttl : Z) (key other : string) (e : CacheEntry) (r : RedisCache.t) :
  (0 < ttl)%Z -> Redis.net r = [] -> key <> other ->
  (let r' := snd (RedisCache.set ttl key e r) in
   fst (RedisCache.get other r') = fst (RedisCache.get other r) /\
   fst (RedisCache.contains other r') = fst (RedisCache.contains other r)) /\
  (let r' := snd (RedisCache.delete key r) in
   fst (RedisCache.get other r') = fst (RedisCache.get other r) /\
   fst (RedisCache.contains other r') = fst (RedisCache.contains other r)).
Proof.
  intros Httl Hnet Hne.
  assert (Hget : forall r1 r2, Redis.net r1 = [] -> Redis.net r2 = [] ->
            Redis.live r1 other = Redis.live r2 other ->
            fst (RedisCache.get other r1) = fst (RedisCache.get other r2) /\
            fst (RedisCache.contains other r1) = fst (RedisCache.contains other r2)).
  { intros r1 r2 H1 H2 Hl. rewrite !RedisCache_contains_calm by assumption.
    unfold RedisCache.get, Redis.GET. rewrite !Redis_command_calm by assumption.
    rewrite Hl. split; [|reflexivity].
    destruct (Redis.live r2 other) as [raw|]; [|reflexivity].
    destruct (JSON.parse raw) as [[]|]; reflexivity. }
  assert (Hne' : String.eqb key other = false) by (apply String.eqb_neq, Hne).
  split; cbv zeta.
  - rewrite RedisCache_set_calm by assumption. cbn [snd].
    apply Hget; [exact Hnet | exact Hnet |].
    unfold Redis.live. simpl. rewrite Hne', Redis_lookup_remove_other by exact Hne. reflexivity.
  - rewrite RedisCache_delete_calm by assumption. cbn [snd].
    apply Hget; [exact Hnet | exact Hnet |].
    unfold Redis.live. simpl. rewrite Redis_lookup_remove_other by exact Hne. reflexivity.
Qed.

Lemma RedisCache_other_keys_untouched_witness :
  let e1 := {| data := VNum 1; timeStored := 10; status := 200 |} in
  let e2 := {| data := VNum 2; timeStored := 20; status := 404 |} in
  let r0 := {| Redis.db := []; Redis.now := 0%Z; Redis.net := []; Redis.unhandled := [] |} in
  let r := snd (RedisCache.set 1800 "GET /a" e1 r0) in
  (0 < 1800)%Z /\ Redis.net r = [] /\ "GET /b" <> "GET /a" /\
  fst (RedisCache.get "GET /a" (snd (RedisCache.set 1800 "GET /b" e2 r))) =
    Resolved (entry_object e1).
Proof.
  intros e1 e2 r0 r.
  assert (Hne : "GET /b" <> "GET /a") by discriminate.
  split; [reflexivity|]. split; [reflexivity|]. split; [exact Hne|].
  destruct (RedisCache_other_keys_untouched 1800 "GET /b" "GET /a" e2 r eq_refl eq_refl Hne)
    as [[H _] _].
  cbv zeta in H. rewrite H. vm_compute. reflexivity.
Defined.

(** * More on the selection of the backend *)

(** X17: when the connection to the store is made, the networked backend
    is selected and the file is not read; when it fails and "cache.json"
    holds a JSON document, of whatever shape, the File/Memory backend is
    selected, with an empty Map. *)
Theorem select_cache_picks_backend (r : Redis.t) (f : File) :
  (fst (Redis.connect r) = Ok tt ->
   select_cache r f = Some (UseRedis (snd (Redis.connect r)))) /\
  (forall err text v,
     fst (Redis.connect r) = Throw err -> f = Contents text -> JSON.parse text = Ok v ->
     select_cache r f = Some (UseLocal {| LocalCache.map := []; LocalCache.file := f |})).
Proof.
  split.
  - apply select_cache_connected.
  - intros err text v Hc -> Hp. rewrite (select_cache_fallback r _ err Hc).
    rewrite (LocalCache_new_parsed text v Hp). reflexivity.
Qed.

Lemma select_cache_picks_backend_witness :
  let up := {| Redis.db := []; Redis.now := 0%Z; Redis.net := []; Redis.unhandled := [] |} in
  let down := {| Redis.db := []; Redis.now := 0%Z;
                 Redis.net := [Some (ClientError "ECONNREFUSED")]; Redis.unhandled := [] |} in
  fst (Redis.connect up) = Ok tt /\
  select_cache up Absent = Some (UseRedis up) /\
  fst (Redis.connect down) = Throw (ClientError "ECONNREFUSED") /\
  JSON.parse "{}" = Ok (VObj []) /\
  select_cache down (Contents "{}") =
    Some (UseLocal {| LocalCache.map := []; LocalCache.file := Contents "{}" |}).
Proof.
  intros up down.
  split; [reflexivity|].
  split; [exact (proj1 (select_cache_picks_backend up Absent) eq_refl)|].
  split; [reflexivity|]. split; [reflexivity|].
  exact (proj2 (select_cache_picks_backend down (Contents "{}"))
           (ClientError "ECONNREFUSED") "{}" (VObj []) eq_refl eq_refl eq_refl).
Defined.

(** * The two request handlers *)

Lemma JsMap_get_present m k :
  JsMap.has m k = true -> Forall holds_entry m -> exists e, JsMap.get m k = entry_object e.
Proof.
  intros Hk Hm. induction Hm as [|[k0 v0] rest H0 _ IH]; simpl in *; [discriminate|].
  destruct (JsMap.same_value_zero k0 k); [|exact (IH Hk)].
  destruct H0 as (key & e & H0). inversion H0. exists e. reflexivity.
Qed.

(** X18: on a Map that holds cache entries, the request handler over the
    File/Memory backend logs, asks and answers what the handler of the
    entry point that keeps the Map itself does, with the TTL of 1800
    seconds, and leaves the same Map. *)
Theorem handler_agrees_with_entry_point_handler
    (req : Request) (now later : Z) (upstream : AxiosOutcome) (m : JsMap.t) (f : File) :
  Forall holds_entry m ->
  let run := handler 1800 req now later upstream {| LocalCache.map := m; LocalCache.file := f |} in
  entry_point_handler req now later upstream m =
  Ok (filter observable (trace run), LocalCache.map (cache_after run)).
Proof.
  intros Hm. cbv zeta. unfold entry_point_handler, handler.
  cbn [get LocalCache_ApiCache]. unfold LocalCache.get. cbn [LocalCache.map].
  destruct (JsMap.has m (VStr (cacheKey req))) eqn:Hhas.
  - destruct (JsMap_get_present m _ Hhas Hm) as [e He]. rewrite He.
    change (entry_object e) with (VObj [("data", data e); ("status", VNum (status e));
                                        ("timeStored", VNum (timeStored e))]) at 1 4.
    cbv iota. fold (entry_object e).
    destruct (fresh 1800 now (entry_object e)).
    + cbn [trace cache_after LocalCache.map filter observable app].
      unfold cached_reply. destruct (prop (entry_object e) "data"); reflexivity.
    + cbn [delete LocalCache_ApiCache]. unfold LocalCache.delete. cbn [LocalCache.map].
      destruct (JsMap.delete m (VStr (cacheKey req))) as [b m'].
      rewrite forward_outcome. cbn [trace cache_after set LocalCache_ApiCache].
      unfold LocalCache.set. cbn [LocalCache.map snd filter observable app].
      destruct upstream; reflexivity.
  - rewrite (JsMap_get_absent _ _ Hhas).
    rewrite forward_outcome. cbn [trace cache_after set LocalCache_ApiCache].
    unfold LocalCache.set. cbn [LocalCache.map snd filter observable app].
    destruct upstream; reflexivity.
Qed.

Lemma handler_agrees_with_entry_point_handler_witness :
  let req := {| method := "GET"; url := "/recipes?query=pasta";
                query := [("query", "pasta")] |} in
  let e := {| data := VObj [("id", VNum 1)]; timeStored := 1000; status := 200 |} in
  let m := [(VStr "GET /recipes?query=pasta", entry_object e)] in
  Forall holds_entry m /\
  entry_point_handler req 2000 3000 ErrorRequest m =
    Ok ([LogIn "GET" "/recipes?query=pasta"; SendJson (VNum 200) (VObj [("id", VNum 1)])], m).
Proof.
  intros req e m.
  assert (Hm : Forall holds_entry m).
  { constructor; [|constructor]. exists "GET /recipes?query=pasta", e. reflexivity. }
  split; [exact Hm|].
  rewrite (handler_agrees_with_entry_point_handler req 2000 3000 ErrorRequest m Absent Hm).
  vm_compute. reflexivity.
Defined.

(** X19: in every backend that the constructor and the operations lead
    to, [contains] answers true exactly when [get] hands out an entry, and
    what [get] hands out is then the object of a cache entry. *)
Theorem LocalCache_contains_iff_get (c : LocalCache.t) (key : string) :
  reachable c ->
  (fst (LocalCache.contains key c) = Resolved true ->
   exists e, fst (LocalCache.get key c) = Resolved (entry_object e)) /\
  (fst (LocalCache.contains key c) = Resolved false ->
   fst (LocalCache.get key c) = Resolved VUndefined).
Proof.
  intros Hr.
  assert (He : Forall holds_entry (LocalCache.map c)).
  { induction Hr as [f c Hnew | k e c Hr IH | k c Hr IH | c Hr IH].
    - rewrite (LocalCache_new_map f c Hnew). constructor.
    - apply holds_entry_set, IH.
    - unfold LocalCache.delete.
      pose proof (holds_entry_delete (LocalCache.map c) (VStr k) IH) as H.
      destruct (JsMap.delete (LocalCache.map c) (VStr k)). exact H.
    - rewrite LocalCache_persist_map. exact IH. }
  unfold LocalCache.contains, LocalCache.get. cbn [fst]. split; intros H.
  - inversion H as [Hhas]. destruct (JsMap_get_present _ _ Hhas He) as [e Hg].
    exists e. rewrite Hg. reflexivity.
  - inversion H as [Hhas]. rewrite (JsMap_get_absent _ _ Hhas). reflexivity.
Qed.

Lemma LocalCache_contains_iff_get_witness :
  let e := {| data := VNum 1; timeStored := 10; status := 200 |} in
  let c := snd (LocalCache.set "GET /a" e {| LocalCache.map := []; LocalCache.file := Contents "[]" |}) in
  reachable c /\
  fst (LocalCache.contains "GET /a" c) = Resolved true /\
  fst (LocalCache.contains "GET /b" c) = Resolved false /\
  fst (LocalCache.get "GET /b" c) = Resolved VUndefined.
Proof.
  intros e c.
  assert (Hr : reachable c).
  { apply reach_set. apply (reach_new (Contents "[]")). vm_compute. reflexivity. }
  split; [exact Hr|]. split; [reflexivity|]. split; [reflexivity|].
  exact (proj2 (LocalCache_contains_iff_get c "GET /b" Hr) eq_refl).
Defined.

(** X20: with the networked backend, the answer that a request stores
    after a miss is what the next request with the same method and address
    gets from the cache while the store keeps the entry and
    [now - timeStored < CACHE_TTL_SECONDS * 1000]; once the store has let
    the entry expire, the next request is a miss: it goes to the upstream
    API without a call of [delete]. *)
Theorem handler_replays_from_store
    (ttl : Z) (req req2 : Request) (now later now2 later2 ms : Z)
    (upstream upstream2 : AxiosOutcome) (r : RedisCache.t) :
  (0 < ttl)%Z -> Redis.net r = [] -> Redis.live r (cacheKey req) = None ->
  JSON.is_json (data (outcome_entry later upstream)) = true ->
  cacheKey req2 = cacheKey req -> (0 <= ms)%Z ->
  let run := @handler RedisCache.t (RedisCache_ApiCache ttl) ttl req now later upstream r in
  let r' := Redis.elapse ms (cache_after run) in
  let run2 := @handler RedisCache.t (RedisCache_ApiCache ttl) ttl req2 now2 later2 upstream2 r' in
  ((ms < ttl * 1000)%Z -> (now2 - later < ttl * 1000)%Z ->
   run2 = {| trace := [LogIn (method req2) (logged_url req2); CacheGet (cacheKey req2);
                       cached_reply (entry_object (outcome_entry later upstream))];
             settled := Resolved tt; floating := []; cache_after := r' |}) /\
  ((ttl * 1000 <= ms)%Z ->
   trace run2 =
     [LogIn (method req2) (logged_url req2); CacheGet (cacheKey req2);
      LogOut (method req2) (SPOONACULAR_API_BASE_URL ++ logged_url req2);
      UpstreamRequest (method req2) (url req2);
      CacheSet (cacheKey req2) (outcome_entry later2 upstream2);
      outcome_reply upstream2]).
Proof.
  intros Httl Hnet Hmiss Hj Hkey Hms. cbv zeta.
  assert (Hrun : cache_after (@handler RedisCache.t (RedisCache_ApiCache ttl) ttl req now later upstream r)
                 = Redis.with_db r
                     ((cacheKey req,
                       (JSON.write (entry_object (outcome_entry later upstream)) "",
                        (Redis.now r + ttl * 1000)%Z)) :: Redis.remove (Redis.db r) (cacheKey req))).
  { unfold handler. cbn [get RedisCache_ApiCache].
    rewrite (RedisCache_get_absent _ _ Hnet Hmiss). cbv iota.
    rewrite forward_outcome. cbn [cache_after set RedisCache_ApiCache].
    rewrite RedisCache_set_calm by assumption. reflexivity. }
  rewrite Hrun. split.
  - intros Hlive Hfresh. unfold handler. rewrite Hkey. cbn [get RedisCache_ApiCache].
    rewrite (RedisCache_get_live _ _ (JSON.write (entry_object (outcome_entry later upstream)) "")
               (entry_object (outcome_entry later upstream)));
      [ | exact Hnet | apply Redis_live_written; lia
        | apply parse_write, entry_object_json, Hj | discriminate ].
    change (entry_object (outcome_entry later upstream))
      with (VObj [("data", data (outcome_entry later upstream));
                  ("status", VNum (status (outcome_entry later upstream)));
                  ("timeStored", VNum (timeStored (outcome_entry later upstream)))]) at 1.
    cbv iota. fold (entry_object (outcome_entry later upstream)).
    rewrite fresh_entry.
    replace (timeStored (outcome_entry later upstream)) with later
      by (destruct upstream; reflexivity).
    apply Z.ltb_lt in Hfresh. rewrite Hfresh. reflexivity.
  - intros Hdead. unfold handler. rewrite Hkey. cbn [get RedisCache_ApiCache].
    rewrite RedisCache_get_absent; [ | exact Hnet | apply Redis_live_expired; lia ].
    cbv iota. rewrite forward_outcome. rewrite <- Hkey. reflexivity.
Qed.

Lemma handler_replays_from_store_witness :
  let req := {| method := "GET"; url := "/recipes?query=pasta";
                query := [("query", "pasta")] |} in
  let r := {| Redis.db := []; Redis.now := 2000%Z; Redis.net := []; Redis.unhandled := [] |} in
  let up := Fulfilled (VObj [("id", VNum 1)]) 200 in
  let run := @handler RedisCache.t (RedisCache_ApiCache 1800) 1800 req 1000 2000 up r in
  (0 < 1800)%Z /\ Redis.net r = [] /\ Redis.live r (cacheKey req) = None /\
  JSON.is_json (data (outcome_entry 2000 up)) = true /\ (0 <= 5000)%Z /\
  (5000 < 1800 * 1000)%Z /\ (7000 - 2000 < 1800 * 1000)%Z /\
  trace (@handler RedisCache.t (RedisCache_ApiCache 1800) 1800 req 7000 8000 ErrorRequest
           (Redis.elapse 5000 (cache_after run))) =
    [LogIn "GET" "/recipes?query=pasta"; CacheGet "GET /recipes?query=pasta";
     SendJson (VNum 200) (VObj [("id", VNum 1)])].
Proof.
  intros req r up run.
  split; [reflexivity|]. split; [reflexivity|]. split; [reflexivity|]. split; [reflexivity|].
  split; [discriminate|]. split; [reflexivity|]. split; [reflexivity|].
  pose proof (proj1 (handler_replays_from_store 1800 req req 1000 2000 7000 8000 5000
                       up ErrorRequest r eq_refl eq_refl eq_refl eq_refl eq_refl
                       ltac:(discriminate)) eq_refl eq_refl) as H.
  cbv zeta in H. fold run in H. rewrite H. vm_compute. reflexivity.
Defined.
